(** * Splash logging facility: [Splash::Spinlock] and [Splash::Log]

    A shallow embedding of [spinlock.h] and [log.h].  The class [Log] becomes a
    record holding the data members of the class together with the two
    character streams it writes to ([std::cout] and the log file); every
    member function becomes a function on that record.  The wall clock and the
    file system are inputs of the functions that consult them: the text
    produced by [strftime] and the result of [logFile.good()]. *)

From Stdlib Require Import ZArith List String Ascii Bool Lia DecimalString Permutation.
Import ListNotations.

Local Open Scope Z_scope.

(** ** Machine integers *)

(** [int] is a 32-bit two's complement integer, [size_t] a 64-bit unsigned
    one.  Conversions between them are written out. *)
Definition INT_MAX : Z := 2 ^ 31 - 1.

Definition int_of (z : Z) : Z := (z + 2 ^ 31) mod 2 ^ 32 - 2 ^ 31.

Definition size_t_of (z : Z) : Z := z mod 2 ^ 64.

(** ** spinlock.h *)

Module Spinlock.

(** [std::atomic_flag _lock = ATOMIC_FLAG_INIT] *)
Record t : Set := Build { _lock : bool }.

Definition init : t := {| _lock := false |}.

(** [_lock.test_and_set(...)]: returns the old value and sets the flag. *)
Definition test_and_set (l : t) : bool * t := (_lock l, {| _lock := true |}).

(** [while (_lock.test_and_set(std::memory_order_acquire)) {}]

    One unit of fuel is one turn of the loop.  In a run of a single thread
    nobody clears the flag, so a set flag exhausts any fuel: [None] stands
    for a caller that is still spinning. *)
Fixpoint lock (fuel : nat) (l : t) : option t :=
  match fuel with
  | O => None
  | S fuel' =>
      let (was_set, l') := test_and_set l in
      if was_set then lock fuel' l' else Some l'
  end.

(** [_lock.clear(std::memory_order_release)] *)
Definition unlock (l : t) : t := {| _lock := false |}.

(** [return !_lock.test_and_set(std::memory_order_acquire)] *)
Definition try_lock (l : t) : bool * t :=
  let (was_set, l') := test_and_set l in (negb was_set, l').

End Spinlock.

(** ** log.h: types *)

Inductive Priority : Set := DEBUGGING | MESSAGE | WARNING | ERROR | NONE.

(** The enumerators' values: [DEBUGGING = 0] and then one more each. *)
Definition Priority_val (p : Priority) : Z :=
  match p with
  | DEBUGGING => 0
  | MESSAGE => 1
  | WARNING => 2
  | ERROR => 3
  | NONE => 4
  end.

Definition Priority_eqb (p q : Priority) : bool := Priority_val p =? Priority_val q.

(** [p >= q] on the enumeration *)
Definition Priority_geb (p q : Priority) : bool := Priority_val q <=? Priority_val p.

Definition Priority_eq_dec (p q : Priority) : {p = q} + {p <> q}.
Proof. decide equality. Defined.

Inductive Action : Set := endl.

(** An element of [_logs]: [std::pair<std::string, Priority>] *)
Definition entry : Set := (string * Priority)%type.

(** An argument of the variadic [rec] and [operator()], by the overload of
    [addToString] that takes it: a [std::string], a [const char*], or a value
    of an integral type handed to [std::to_string].  (Floating-point
    arguments are left out of the model.) *)
Inductive Arg : Set :=
| ArgString (s : string)
| ArgCStr (s : string)
| ArgNum (z : Z).

Definition to_string (z : Z) : string := NilZero.string_of_int (Z.to_int z).

Record Log : Set := mkLog {
  _mutex : Spinlock.t;
  _logs : list entry;          (* std::deque, front first *)
  _logToFile : bool;
  _logLength : Z;              (* int *)
  _logPointer : Z;             (* int *)
  _verbosity : Priority;
  _tempString : string;
  _tempPriority : Priority;
  std_cout : string;           (* what has been written to std::cout *)
  log_file : string            (* content of SPLASH_LOG_FILE *)
}.

(** The object built by [new Log] in [Log::get()], with the default member
    initialisers; the two streams start with the given content. *)
Definition Log_new (cout file : string) : Log :=
  {| _mutex := Spinlock.init;
     _logs := [];
     _logToFile := false;
     _logLength := 500;
     _logPointer := 0;
     _verbosity := MESSAGE;
     _tempString := EmptyString;
     _tempPriority := MESSAGE;
     std_cout := cout;
     log_file := file |}.

Definition set_mutex (m : Spinlock.t) (s : Log) : Log :=
  mkLog m (_logs s) (_logToFile s) (_logLength s) (_logPointer s) (_verbosity s)
        (_tempString s) (_tempPriority s) (std_cout s) (log_file s).

Definition set_logs (l : list entry) (s : Log) : Log :=
  mkLog (_mutex s) l (_logToFile s) (_logLength s) (_logPointer s) (_verbosity s)
        (_tempString s) (_tempPriority s) (std_cout s) (log_file s).

Definition set_logToFile (b : bool) (s : Log) : Log :=
  mkLog (_mutex s) (_logs s) b (_logLength s) (_logPointer s) (_verbosity s)
        (_tempString s) (_tempPriority s) (std_cout s) (log_file s).

Definition set_logLength (n : Z) (s : Log) : Log :=
  mkLog (_mutex s) (_logs s) (_logToFile s) n (_logPointer s) (_verbosity s)
        (_tempString s) (_tempPriority s) (std_cout s) (log_file s).

Definition set_logPointer (i : Z) (s : Log) : Log :=
  mkLog (_mutex s) (_logs s) (_logToFile s) (_logLength s) i (_verbosity s)
        (_tempString s) (_tempPriority s) (std_cout s) (log_file s).

Definition set_verbosity (p : Priority) (s : Log) : Log :=
  mkLog (_mutex s) (_logs s) (_logToFile s) (_logLength s) (_logPointer s) p
        (_tempString s) (_tempPriority s) (std_cout s) (log_file s).

Definition set_tempString (t : string) (s : Log) : Log :=
  mkLog (_mutex s) (_logs s) (_logToFile s) (_logLength s) (_logPointer s) (_verbosity s)
        t (_tempPriority s) (std_cout s) (log_file s).

Definition set_tempPriority (p : Priority) (s : Log) : Log :=
  mkLog (_mutex s) (_logs s) (_logToFile s) (_logLength s) (_logPointer s) (_verbosity s)
        (_tempString s) p (std_cout s) (log_file s).

Definition set_cout (c : string) (s : Log) : Log :=
  mkLog (_mutex s) (_logs s) (_logToFile s) (_logLength s) (_logPointer s) (_verbosity s)
        (_tempString s) (_tempPriority s) c (log_file s).

Definition set_file (f : string) (s : Log) : Log :=
  mkLog (_mutex s) (_logs s) (_logToFile s) (_logLength s) (_logPointer s) (_verbosity s)
        (_tempString s) (_tempPriority s) (std_cout s) f.

(** ** Strings and the deque *)

Definition nl : string := String (ascii_of_nat 10) EmptyString.
Definition esc : string := String (ascii_of_nat 27) EmptyString.

(** [s.find(pat)]: the first position of [pat] in [s]; [None] is [npos]. *)
Definition find (s pat : string) : option nat := String.index 0 pat s.

(** [s.replace(pos, len, str)] for [pos <= s.size()] *)
Definition replace (pos len : nat) (str s : string) : string :=
  (substring 0 pos s ++ str
     ++ substring (pos + len) (String.length s - (pos + len)) s)%string.

(** [_logs.size()], a [size_t] *)
Definition size {A : Type} (l : list A) : Z := Z.of_nat (List.length l).

Definition push_back {A : Type} (x : A) (l : list A) : list A := l ++ [x].

(** [_logs.pop_front()] and [_logs.erase(_logs.begin())] on a deque that is
    not empty *)
Definition pop_front {A : Type} (l : list A) : list A := tl l.
Definition erase_begin {A : Type} (l : list A) : list A := tl l.

(** ** log.h: private member functions *)

(** The overloads of [addToString], one argument after the other. *)
Fixpoint addToString (str : string) (args : list Arg) : string :=
  match args with
  | [] => str
  | ArgString s :: args' => addToString (str ++ s) args'
  | ArgCStr s :: args' => addToString (str ++ s) args'
  | ArgNum t :: args' => addToString (str ++ to_string t) args'
  end.

Definition toConsole (message : string) (s : Log) : Log :=
  let msg := message in
  let msg :=
    match find msg "[MESSAGE]" with
    | Some pos => replace pos 9 (esc ++ "[32;1m[MESSAGE]" ++ esc ++ "[0m") msg
    | None =>
    match find msg "[DEBUG]" with
    | Some pos => replace pos 7 (esc ++ "[36;1m[DEBUG]" ++ esc ++ "[0m") msg
    | None =>
    match find msg "[WARNING]" with
    | Some pos => replace pos 9 (esc ++ "[33;1m[WARNING]" ++ esc ++ "[0m") msg
    | None =>
    match find msg "[ERROR]" with
    | Some pos => replace pos 7 (esc ++ "[31;1m[ERROR]" ++ esc ++ "[0m") msg
    | None => msg
    end end end end in
  set_cout (std_cout s ++ msg ++ nl) s.

(** The tag chosen by the cascade of comparisons in [rec]; [type] stays empty
    when no comparison succeeds. *)
Definition rec_type (p : Priority) : string :=
  if Priority_eqb p MESSAGE then "[MESSAGE]"
  else if Priority_eqb p DEBUGGING then " [DEBUG] "
  else if Priority_eqb p WARNING then "[WARNING]"
  else if Priority_eqb p ERROR then " [ERROR] "
  else "".

(** The text [rec] builds: [time_c] is what [strftime] wrote. *)
Definition rec_timedMsg (time_c : string) (p : Priority) (args : list Arg) : string :=
  addToString (time_c ++ " / " ++ rec_type p ++ " / ") args.

(** [rec(p, args...)].  [good] is the result of [logFile.good()] after the
    file has been opened; it is consulted only when [_logToFile] is set. *)
Definition rec (time_c : string) (good : bool) (p : Priority) (args : list Arg)
    (s : Log) : Log :=
  let timedMsg := rec_timedMsg time_c p args in
  let s :=
    if _logToFile s then
      if good then set_file (log_file s ++ timedMsg ++ nl) s else s
    else s in
  let s := if Priority_geb p (_verbosity s) then toConsole timedMsg s else s in
  let s := set_logs (push_back (timedMsg, p) (_logs s)) s in
  if size (_logs s) >? size_t_of (_logLength s) then
    let s :=
      set_logPointer (if _logPointer s >? 0 then _logPointer s - 1 else _logPointer s) s in
    set_logs (erase_begin (_logs s)) s
  else s.

(** ** log.h: public member functions *)

(** [std::lock_guard<Spinlock> lock(_mutex)] around the rest of a function
    body: the constructor calls [_mutex.lock()], the destructor
    [_mutex.unlock()] when the function returns. *)
Definition lock_guard {A : Type} (fuel : nat) (body : Log -> option (Log * A))
    (s : Log) : option (Log * A) :=
  match Spinlock.lock fuel (_mutex s) with
  | None => None
  | Some m =>
      match body (set_mutex m s) with
      | None => None
      | Some (s', r) => Some (set_mutex (Spinlock.unlock (_mutex s')) s', r)
      end
  end.

(** [void operator()(Priority p, T... args)] *)
Definition operator_call (fuel : nat) (time_c : string) (good : bool)
    (p : Priority) (args : list Arg) : Log -> option (Log * unit) :=
  lock_guard fuel (fun s => Some (rec time_c good p args s, tt)).

(** [Log& operator<<(const T& msg)] *)
Definition operator_shl (fuel : nat) (msg : Arg) : Log -> option (Log * unit) :=
  lock_guard fuel
    (fun s => Some (set_tempString (addToString (_tempString s) [msg]) s, tt)).

(** [Log& operator<<(const Value& v)]; [v_as_string] is [v.as<std::string>()]. *)
Definition operator_shl_Value (fuel : nat) (v_as_string : string)
    : Log -> option (Log * unit) :=
  lock_guard fuel
    (fun s =>
       Some (set_tempString (addToString (_tempString s) [ArgString v_as_string]) s, tt)).

(** [Log& operator<<(Log::Action action)] *)
Definition operator_shl_Action (fuel : nat) (time_c : string) (good : bool)
    (action : Action) : Log -> option (Log * unit) :=
  lock_guard fuel
    (fun s =>
       match action with
       | endl =>
           let s :=
             if Priority_geb (_tempPriority s) (_verbosity s)
             then rec time_c good (_tempPriority s) [ArgString (_tempString s)] s
             else s in
           let s := set_tempString EmptyString s in
           let s := set_tempPriority MESSAGE s in
           Some (s, tt)
       end).

(** [Log& operator<<(Log::Priority p)] *)
Definition operator_shl_Priority (fuel : nat) (p : Priority)
    : Log -> option (Log * unit) :=
  lock_guard fuel (fun s => Some (set_tempPriority p s, tt)).

(** [getFullLogs() { return _logs; }] *)
Definition getFullLogs (s : Log) : Log * list entry := (s, _logs s).

(** The two nested range-for loops of [getLogs]. *)
Definition getLogs_loops (_logs : list entry) (priorities : list Priority)
    : list string :=
  fold_left
    (fun logs log =>
       fold_left
         (fun logs p =>
            if Priority_eqb (snd log) p then push_back (fst log) logs else logs)
         priorities logs)
    _logs [].

Definition getLogs (fuel : nat) (args : list Priority)
    : Log -> option (Log * list string) :=
  lock_guard fuel (fun s => Some (s, getLogs_loops (_logs s) args)).

(** [for (int i = _logPointer; i < _logs.size(); ++i) logs.push_back(_logs[i]);]

    The comparison converts [i] to [size_t].  [None] when the fuel runs out
    or [_logs[i]] is out of range. *)
Fixpoint getNewLogs_loop (fuel : nat) (i : Z) (_logs logs : list entry)
    : option (list entry) :=
  match fuel with
  | O => None
  | S fuel' =>
      if size_t_of i <? size _logs then
        match nth_error _logs (Z.to_nat (size_t_of i)) with
        | Some e => getNewLogs_loop fuel' (int_of (i + 1)) _logs (push_back e logs)
        | None => None
        end
      else Some logs
  end.

(** [getNewLogs()]: the loop turns at most [_logs.size()] times before its
    test fails. *)
Definition getNewLogs (fuel : nat) : Log -> option (Log * list entry) :=
  lock_guard fuel
    (fun s =>
       match getNewLogs_loop (S (List.length (_logs s))) (_logPointer s) (_logs s) [] with
       | None => None
       | Some logs => Some (set_logPointer (int_of (size (_logs s))) s, logs)
       end).

(** [getVerbosity() { return _verbosity; }] *)
Definition getVerbosity (s : Log) : Log * Priority := (s, _verbosity s).

(** [logToFile(bool activate) { _logToFile = activate; }] *)
Definition logToFile (activate : bool) (s : Log) : Log * unit :=
  (set_logToFile activate s, tt).

(** [setVerbosity(Priority p) { _verbosity = p; }] *)
Definition setVerbosity (p : Priority) (s : Log) : Log * unit :=
  (set_verbosity p s, tt).

(** [setLog(const std::string& log, Priority priority)] *)
Definition setLog (fuel : nat) (log : string) (priority : Priority)
    : Log -> option (Log * unit) :=
  lock_guard fuel
    (fun s =>
       let s := set_logs (push_back (log, priority) (_logs s)) s in
       let s :=
         if size (_logs s) >? size_t_of (_logLength s) then
           let s :=
             set_logPointer
               (if _logPointer s >? 0 then _logPointer s - 1 else _logPointer s) s in
           set_logs (pop_front (_logs s)) s
         else s in
       Some (s, tt)).

(** ** Calls to the public interface *)

Inductive Op : Set :=
| OpRecord (p : Priority) (args : list Arg)      (* operator() *)
| OpShl (msg : Arg)                              (* operator<<(const T&) *)
| OpShlValue (v_as_string : string)              (* operator<<(const Value&) *)
| OpShlAction (action : Action)                  (* operator<<(Log::Action) *)
| OpShlPriority (p : Priority)                   (* operator<<(Log::Priority) *)
| OpGetFullLogs
| OpGetLogs (args : list Priority)
| OpGetNewLogs
| OpGetVerbosity
| OpLogToFile (activate : bool)
| OpSetVerbosity (p : Priority)
| OpSetLog (log : string) (priority : Priority).

(** What a call returns. *)
Inductive Result : Set :=
| RVoid
| RFull (logs : list entry)
| RTexts (logs : list string)
| RNew (logs : list entry)
| RPriority (p : Priority).

(** What the surroundings answer during one call. *)
Record Env : Set := mkEnv {
  time_c : string;      (* the local time as formatted by strftime *)
  good : bool           (* whether the log file could be opened *)
}.

Definition ret {A : Type} (f : A -> Result) (r : option (Log * A))
    : option (Log * Result) :=
  match r with
  | None => None
  | Some (s, a) => Some (s, f a)
  end.

Definition step (fuel : nat) (env : Env) (o : Op) (s : Log) : option (Log * Result) :=
  match o with
  | OpRecord p args =>
      ret (fun _ => RVoid) (operator_call fuel (time_c env) (good env) p args s)
  | OpShl msg => ret (fun _ => RVoid) (operator_shl fuel msg s)
  | OpShlValue v => ret (fun _ => RVoid) (operator_shl_Value fuel v s)
  | OpShlAction a =>
      ret (fun _ => RVoid) (operator_shl_Action fuel (time_c env) (good env) a s)
  | OpShlPriority p => ret (fun _ => RVoid) (operator_shl_Priority fuel p s)
  | OpGetFullLogs => ret RFull (Some (getFullLogs s))
  | OpGetLogs args => ret RTexts (getLogs fuel args s)
  | OpGetNewLogs => ret RNew (getNewLogs fuel s)
  | OpGetVerbosity => ret RPriority (Some (getVerbosity s))
  | OpLogToFile b => ret (fun _ => RVoid) (Some (logToFile b s))
  | OpSetVerbosity p => ret (fun _ => RVoid) (Some (setVerbosity p s))
  | OpSetLog log p => ret (fun _ => RVoid) (setLog fuel log p s)
  end.

(** A sequence of calls made one after the other, with the results in order. *)
Fixpoint run (fuel : nat) (calls : list (Env * Op)) (s : Log)
    : option (Log * list Result) :=
  match calls with
  | [] => Some (s, [])
  | (env, o) :: calls' =>
      match step fuel env o s with
      | None => None
      | Some (s', r) =>
          match run fuel calls' s' with
          | None => None
          | Some (s'', rs) => Some (s'', r :: rs)
          end
      end
  end.

(** ** Specification vocabulary *)

(** The lock is not held. *)
Definition free (s : Log) : Prop := Spinlock._lock (_mutex s) = false.

(** The lock is held (by some other caller). *)
Definition held (s : Log) : Prop := Spinlock._lock (_mutex s) = true.

(** The capacity is a non-negative [int] and the history fits in it. *)
Definition bounded (s : Log) : Prop :=
  0 <= _logLength s <= INT_MAX /\ size (_logs s) <= _logLength s.

(** The read cursor points into the history or just past its end. *)
Definition cursor_ok (s : Log) : Prop := 0 <= _logPointer s <= size (_logs s).

Definition wf (s : Log) : Prop := free s /\ bounded s /\ cursor_ok s.

(** The last [n] elements of a list. *)
Definition lastn {A : Type} (n : nat) (l : list A) : list A :=
  skipn (List.length l - n) l.

(** The capacity as a number of entries. *)
Definition cap (s : Log) : nat := Z.to_nat (_logLength s).

(** The entries not yet handed out by [getNewLogs]. *)
Definition undelivered (s : Log) : list entry :=
  skipn (Z.to_nat (_logPointer s)) (_logs s).

(** The entry a call hands to the history, if any. *)
Definition appended (env : Env) (o : Op) (s : Log) : list entry :=
  match o with
  | OpRecord p args => [(rec_timedMsg (time_c env) p args, p)]
  | OpShlAction endl =>
      if Priority_geb (_tempPriority s) (_verbosity s)
      then [(rec_timedMsg (time_c env) (_tempPriority s) [ArgString (_tempString s)],
             _tempPriority s)]
      else []
  | OpSetLog log p => [(log, p)]
  | _ => []
  end.

(** The entries handed to the history during a sequence of calls. *)
Fixpoint appended_run (fuel : nat) (calls : list (Env * Op)) (s : Log) : list entry :=
  match calls with
  | [] => []
  | (env, o) :: calls' =>
      (appended env o s ++
       match step fuel env o s with
       | Some (s', _) => appended_run fuel calls' s'
       | None => []
       end)%list
  end.

Definition is_poll (o : Op) : bool :=
  match o with OpGetNewLogs => true | _ => false end.

Definition no_poll (calls : list (Env * Op)) : bool :=
  forallb (fun c => negb (is_poll (snd c))) calls.

(** The cursor after an entry has gone into the history: one less when the
    history was full and the cursor not at its start. *)
Definition cursor_pushed (s : Log) : Z :=
  if size (_logs s) =? _logLength s
  then (if _logPointer s >? 0 then _logPointer s - 1 else _logPointer s)
  else _logPointer s.

(** The cursor a call leaves behind. *)
Definition cursor_after (env : Env) (o : Op) (s : Log) : Z :=
  if is_poll o then size (_logs s)
  else match appended env o s with
       | [] => _logPointer s
       | _ :: _ => cursor_pushed s
       end.

(** Whether the body of the member function starts with a [lock_guard]. *)
Definition guarded (o : Op) : bool :=
  match o with
  | OpRecord _ _ | OpShl _ | OpShlValue _ | OpShlAction _ | OpShlPriority _
  | OpGetLogs _ | OpGetNewLogs | OpSetLog _ _ => true
  | OpGetFullLogs | OpGetVerbosity | OpLogToFile _ | OpSetVerbosity _ => false
  end.

(** A call holds the lock throughout: all it does happens between the
    construction and the destruction of a [lock_guard]; it cannot proceed
    while the lock is held elsewhere; and started with the lock free it
    returns with the lock free again. *)
Definition locks_throughout (o : Op) : Prop :=
  (exists body : Env -> Log -> option (Log * Result),
     forall fuel env s, step fuel env o s = lock_guard fuel (body env) s) /\
  (forall fuel env s, held s -> step fuel env o s = None) /\
  (forall fuel env s, wf s ->
     exists s' r, step (S fuel) env o s = Some (s', r) /\ free s').

(** [push_back] followed by the test on the size, as both functions have it. *)
Definition push_evict (e : entry) (s : Log) : Log :=
  let s := set_logs (push_back e (_logs s)) s in
  if size (_logs s) >? size_t_of (_logLength s) then
    let s :=
      set_logPointer (if _logPointer s >? 0 then _logPointer s - 1 else _logPointer s) s in
    set_logs (tl (_logs s)) s
  else s.

(** The part of [rec] that writes to the file and to the console. *)
Definition rec_sinks (time_c : string) (good : bool) (p : Priority) (args : list Arg)
    (s : Log) : Log :=
  let timedMsg := rec_timedMsg time_c p args in
  let s :=
    if _logToFile s then
      if good then set_file (log_file s ++ timedMsg ++ nl) s else s
    else s in
  if Priority_geb p (_verbosity s) then toConsole timedMsg s else s.

(** The state a flush leaves behind, lock aside. *)
Definition flushed (t : string) (g : bool) (s : Log) : Log :=
  set_tempPriority MESSAGE
    (set_tempString EmptyString
       (if Priority_geb (_tempPriority s) (_verbosity s)
        then rec t g (_tempPriority s) [ArgString (_tempString s)] s
        else s)).

(** How often [getLogs] returns the text of an entry: once for every
    occurrence of its priority among the arguments. *)
Definition times (priorities : list Priority) (log : entry) : nat :=
  count_occ Priority_eq_dec priorities (snd log).

(** A clock reading and a history capped at three entries, for examples. *)
Definition example_env : Env := mkEnv "2016-01-01T00:00:00" true.

Definition example_log : Log := set_logLength 3 (Log_new EmptyString EmptyString).

(** Whether a character occurs in a string. *)
Fixpoint has_char (c : ascii) (s : string) : bool :=
  match s with
  | EmptyString => false
  | String b s' => Ascii.eqb c b || has_char c s'
  end.

(** The opening bracket every tag sought by [toConsole] starts with. *)
Definition bracket : ascii := "["%char.

(** The tag of a priority with the colour [toConsole] gives it when the
    colour lands on the tag. *)
Definition coloured_type (p : Priority) : string :=
  match p with
  | MESSAGE => esc ++ "[32;1m[MESSAGE]" ++ esc ++ "[0m"
  | DEBUGGING => " " ++ esc ++ "[36;1m[DEBUG]" ++ esc ++ "[0m" ++ " "
  | WARNING => esc ++ "[33;1m[WARNING]" ++ esc ++ "[0m"
  | ERROR => " " ++ esc ++ "[31;1m[ERROR]" ++ esc ++ "[0m" ++ " "
  | NONE => ""
  end.

(** The texts of entries, one line each. *)
Fixpoint lines (l : list entry) : string :=
  match l with
  | [] => EmptyString
  | e :: l' => (fst e ++ nl ++ lines l')%string
  end.

Definition is_inject (o : Op) : bool :=
  match o with OpSetLog _ _ => true | _ => false end.

(** A call that goes through [rec] or leaves the history alone, made while
    the log file can be opened, and that is not [logToFile]. *)
Definition sink_call (c : Env * Op) : bool :=
  good (fst c) &&
  match snd c with
  | OpSetLog _ _ | OpLogToFile _ => false
  | _ => true
  end.

(** Any call but [logToFile(true)]. *)
Definition keeps_sink_off (c : Env * Op) : bool :=
  match snd c with
  | OpLogToFile true => false
  | _ => true
  end.

(** Streaming a message: the priority, the pieces one after the other, then
    [Log::endl] at time [t]. *)
Definition stream_calls (e : Env) (t : string) (g : bool) (p : Priority)
    (args : list Arg) : list (Env * Op) :=
  ((e, OpShlPriority p) :: map (fun a => (e, OpShl a)) args
     ++ [(mkEnv t g, OpShlAction endl)])%list.

Definition all_priorities : list Priority := [DEBUGGING; MESSAGE; WARNING; ERROR; NONE].

(** The tags [toConsole] looks for, in the order it looks for them, each
    with the colour code it is given. *)
Definition tag_colours : list (string * string) :=
  [("[MESSAGE]", "[32;1m"); ("[DEBUG]", "[36;1m");
   ("[WARNING]", "[33;1m"); ("[ERROR]", "[31;1m")]%string.

(** A state in the middle of use: three entries of which the first has
    been delivered, the verbosity raised, the file sink on, a message half
    streamed, and both streams written before. *)
Definition busy_log : Log :=
  set_tempPriority ERROR
    (set_tempString "half a line"
       (set_verbosity WARNING
          (set_logToFile true
             (set_logPointer 1
                (set_logs [("a"%string, ERROR); ("b"%string, WARNING);
                           ("c"%string, MESSAGE)]
                   (Log_new "console so far" "file so far")))))).

(** What a run of a member function shows of the lock. *)
Inductive Event : Set :=
| Acquire                          (* [_mutex.lock()] has returned *)
| Release                          (* [_mutex.unlock()] has been called *)
| Work (at_start at_end : bool).   (* the statements of the body have run; the
                                      lock flag when they started and ended *)

(** The statements of a member function, its [lock_guard] aside. *)
Definition body_of (env : Env) (o : Op) (s : Log) : option (Log * Result) :=
  match o with
  | OpRecord p args => Some (rec (time_c env) (good env) p args s, RVoid)
  | OpShl msg => Some (set_tempString (addToString (_tempString s) [msg]) s, RVoid)
  | OpShlValue v =>
      Some (set_tempString (addToString (_tempString s) [ArgString v]) s, RVoid)
  | OpShlAction endl =>
      let s :=
        if Priority_geb (_tempPriority s) (_verbosity s)
        then rec (time_c env) (good env) (_tempPriority s) [ArgString (_tempString s)] s
        else s in
      let s := set_tempString EmptyString s in
      let s := set_tempPriority MESSAGE s in
      Some (s, RVoid)
  | OpShlPriority p => Some (set_tempPriority p s, RVoid)
  | OpGetFullLogs => Some (s, RFull (_logs s))
  | OpGetLogs args => Some (s, RTexts (getLogs_loops (_logs s) args))
  | OpGetNewLogs =>
      match getNewLogs_loop (S (List.length (_logs s))) (_logPointer s) (_logs s) [] with
      | None => None
      | Some logs => Some (set_logPointer (int_of (size (_logs s))) s, RNew logs)
      end
  | OpGetVerbosity => Some (s, RPriority (_verbosity s))
  | OpLogToFile activate => Some (set_logToFile activate s, RVoid)
  | OpSetVerbosity p => Some (set_verbosity p s, RVoid)
  | OpSetLog log priority =>
      let s := set_logs (push_back (log, priority) (_logs s)) s in
      let s :=
        if size (_logs s) >? size_t_of (_logLength s) then
          let s :=
            set_logPointer
              (if _logPointer s >? 0 then _logPointer s - 1 else _logPointer s) s in
          set_logs (pop_front (_logs s)) s
        else s in
      Some (s, RVoid)
  end.

(** The statements of a body at work, with the lock flag they start and end
    with. *)
Definition work (body : Log -> option (Log * Result)) (s : Log)
    : option (Log * Result * list Event) :=
  match body s with
  | None => None
  | Some (s', r) =>
      Some (s', r, [Work (Spinlock._lock (_mutex s)) (Spinlock._lock (_mutex s'))])
  end.

(** [std::lock_guard<Spinlock> lock(_mutex)] with what it shows: the lock is
    taken where the guard is declared and released where the function
    returns. *)
Definition lock_guard_events (fuel : nat)
    (body : Log -> option (Log * Result * list Event)) (s : Log)
    : option (Log * Result * list Event) :=
  match Spinlock.lock fuel (_mutex s) with
  | None => None
  | Some m =>
      match body (set_mutex m s) with
      | None => None
      | Some (s', r, evs) =>
          Some (set_mutex (Spinlock.unlock (_mutex s')) s', r,
                (Acquire :: evs ++ [Release])%list)
      end
  end.

(** A call with its events: the member functions that declare a
    [lock_guard] as their first statement, and the four that declare none. *)
Definition step_events (fuel : nat) (env : Env) (o : Op) (s : Log)
    : option (Log * Result * list Event) :=
  match o with
  | OpRecord _ _ | OpShl _ | OpShlValue _ | OpShlAction _ | OpShlPriority _
  | OpGetLogs _ | OpGetNewLogs | OpSetLog _ _ =>
      lock_guard_events fuel (work (body_of env o)) s
  | OpGetFullLogs | OpGetVerbosity | OpLogToFile _ | OpSetVerbosity _ =>
      work (body_of env o) s
  end.

Definition erase (x : option (Log * Result * list Event)) : option (Log * Result) :=
  match x with
  | None => None
  | Some (s, r, _) => Some (s, r)
  end.

(** The lock is taken before the body starts, is held when the body starts
    and when it ends, and is released after it: whenever the call returns,
    and it does return on a well-formed state. *)
Definition works_under_lock (o : Op) : Prop :=
  (forall fuel env s s' r evs,
     step_events fuel env o s = Some (s', r, evs) ->
     evs = [Acquire; Work true true; Release]) /\
  (forall fuel env s, wf s ->
     exists s' r,
       step_events (S fuel) env o s = Some (s', r, [Acquire; Work true true; Release])).

(** ** Machine integers, lists *)

Lemma size_t_of_small z : 0 <= z < 2 ^ 64 -> size_t_of z = z.
Proof. intros H. unfold size_t_of. apply Z.mod_small. exact H. Qed.

Lemma int_of_small z : - 2 ^ 31 <= z <= INT_MAX -> int_of z = z.
Proof.
  unfold int_of, INT_MAX. intros H.
  rewrite Z.mod_small; lia.
Qed.

Lemma size_app {A} (l m : list A) : size (l ++ m) = size l + size m.
Proof. unfold size. rewrite length_app. lia. Qed.

Lemma size_nonneg {A} (l : list A) : 0 <= size l.
Proof. unfold size. lia. Qed.

Lemma lastn_all {A} n (l : list A) : (List.length l <= n)%nat -> lastn n l = l.
Proof.
  intros H. unfold lastn.
  replace (List.length l - n)%nat with 0%nat by lia. reflexivity.
Qed.

Lemma lastn_app_lastn {A} n (l m : list A) :
  lastn n (lastn n l ++ m) = lastn n (l ++ m).
Proof.
  unfold lastn. rewrite !length_app, length_skipn, !skipn_app, skipn_skipn, length_skipn.
  f_equal.
  - f_equal. lia.
  - f_equal. lia.
Qed.

Lemma lastn_snoc_full {A} n (l : list A) x :
  List.length l = n -> lastn n (l ++ [x]) = tl (l ++ [x]).
Proof.
  intros H. unfold lastn. rewrite length_app. simpl.
  replace (List.length l + 1 - n)%nat with 1%nat by lia.
  destruct (l ++ [x])%list; reflexivity.
Qed.

(** ** The lock *)

Lemma lock_free fuel l :
  Spinlock._lock l = false -> Spinlock.lock (S fuel) l = Some (Spinlock.Build true).
Proof. destruct l as [b]. simpl. intros ->. reflexivity. Qed.

Lemma lock_held fuel : forall l, Spinlock._lock l = true -> Spinlock.lock fuel l = None.
Proof.
  induction fuel as [|fuel IH]; intros [b] H; simpl in *.
  - reflexivity.
  - subst b. apply IH. reflexivity.
Qed.

Lemma ret_lock_guard {A} (f : A -> Result) fuel (body : Log -> option (Log * A)) s :
  ret f (lock_guard fuel body s) = lock_guard fuel (fun s => ret f (body s)) s.
Proof.
  unfold lock_guard. destruct (Spinlock.lock fuel (_mutex s)); [ | reflexivity ].
  destruct (body (set_mutex t s)) as [[s' r]|]; reflexivity.
Qed.

Lemma lock_guard_held {A} fuel (body : Log -> option (Log * A)) s :
  held s -> lock_guard fuel body s = None.
Proof. intros H. unfold lock_guard. rewrite (lock_held fuel _ H). reflexivity. Qed.

Lemma lock_guard_free {A} fuel (body : Log -> option (Log * A)) s :
  free s ->
  lock_guard (S fuel) body s =
  match body (set_mutex (Spinlock.Build true) s) with
  | None => None
  | Some (s', r) => Some (set_mutex (Spinlock.Build false) s', r)
  end.
Proof. intros H. unfold lock_guard. rewrite (lock_free fuel _ H). reflexivity. Qed.

Lemma rec_push_evict t g p args s :
  rec t g p args s = push_evict (rec_timedMsg t p args, p) (rec_sinks t g p args s).
Proof. reflexivity. Qed.

(** [rec_sinks] touches the two streams only. *)
Lemma rec_sinks_frame t g p args s :
  _mutex (rec_sinks t g p args s) = _mutex s /\
  _logs (rec_sinks t g p args s) = _logs s /\
  _logToFile (rec_sinks t g p args s) = _logToFile s /\
  _logLength (rec_sinks t g p args s) = _logLength s /\
  _logPointer (rec_sinks t g p args s) = _logPointer s /\
  _verbosity (rec_sinks t g p args s) = _verbosity s /\
  _tempString (rec_sinks t g p args s) = _tempString s /\
  _tempPriority (rec_sinks t g p args s) = _tempPriority s.
Proof.
  unfold rec_sinks.
  destruct (_logToFile s) eqn:Hf; [ destruct g | ]; simpl;
    match goal with |- context [Priority_geb ?a ?b] => destruct (Priority_geb a b) end;
    simpl; rewrite ?Hf; repeat split; reflexivity.
Qed.

Lemma push_evict_frame e s :
  _mutex (push_evict e s) = _mutex s /\
  _logToFile (push_evict e s) = _logToFile s /\
  _logLength (push_evict e s) = _logLength s /\
  _verbosity (push_evict e s) = _verbosity s /\
  _tempString (push_evict e s) = _tempString s /\
  _tempPriority (push_evict e s) = _tempPriority s /\
  std_cout (push_evict e s) = std_cout s /\
  log_file (push_evict e s) = log_file s.
Proof.
  unfold push_evict. simpl.
  destruct (size (push_back e (_logs s)) >? size_t_of (_logLength s));
    simpl; repeat split; reflexivity.
Qed.

(** The history and the cursor after a bounded push. *)
Lemma push_evict_logs e s :
  bounded s ->
  _logs (push_evict e s) = lastn (cap s) (_logs s ++ [e]) /\
  size (_logs (push_evict e s)) <= _logLength s.
Proof.
  intros [[H0 H1] H2]. unfold push_evict, cap, push_back. simpl.
  rewrite size_t_of_small by (unfold INT_MAX in H1; lia).
  rewrite size_app. change (size [e]) with 1.
  destruct (size (_logs s) + 1 >? _logLength s) eqn:Hc; simpl.
  - apply Z.gtb_lt in Hc.
    assert (Hlen : List.length (_logs s) = Z.to_nat (_logLength s))
      by (unfold size in *; lia).
    rewrite (lastn_snoc_full _ _ _ Hlen). split; [ reflexivity | ].
    unfold size in *. destruct (_logs s); simpl in *.
    + lia.
    + rewrite length_app. simpl. lia.
  - assert (Hc' : size (_logs s) + 1 <= _logLength s).
    { destruct (Z.gtb_spec (size (_logs s) + 1) (_logLength s)); [ discriminate | lia ]. }
    split.
    + rewrite lastn_all; [ reflexivity | ].
      rewrite length_app. simpl. unfold size in *. lia.
    + rewrite size_app. change (size [e]) with 1. lia.
Qed.

Lemma push_evict_cursor e s :
  bounded s ->
  _logPointer (push_evict e s) = cursor_pushed s.
Proof.
  intros [[H0 H1] H2]. unfold push_evict, push_back, cursor_pushed. simpl.
  rewrite size_t_of_small by (unfold INT_MAX in H1; lia).
  rewrite size_app. change (size [e]) with 1.
  destruct (Z.gtb_spec (size (_logs s) + 1) (_logLength s));
    destruct (Z.eqb_spec (size (_logs s)) (_logLength s)); simpl; try reflexivity; lia.
Qed.

Lemma push_evict_cursor_ok e s :
  bounded s -> cursor_ok s -> cursor_ok (push_evict e s).
Proof.
  intros Hb [Hc0 Hc1]. unfold cursor_ok.
  rewrite (push_evict_cursor e s Hb).
  destruct (push_evict_logs e s Hb) as [Hl _]. rewrite Hl.
  destruct Hb as [[H0 H1] H2].
  unfold cursor_pushed, lastn, cap, size in *. rewrite length_skipn, length_app. simpl.
  destruct (Z.eqb_spec (Z.of_nat (List.length (_logs s))) (_logLength s));
    destruct (Z.gtb_spec (_logPointer s) 0); lia.
Qed.

(** What is still to be delivered after a bounded push: the entries that
    were to be delivered before and the new one, as far as they are retained. *)
Lemma push_evict_undelivered e s :
  bounded s -> cursor_ok s ->
  undelivered (push_evict e s) = lastn (cap s) (undelivered s ++ [e]).
Proof.
  intros Hb [Hc0 Hc1]. unfold undelivered.
  rewrite (push_evict_cursor e s Hb).
  destruct (push_evict_logs e s Hb) as [Hl _]. rewrite Hl.
  destruct Hb as [[H0 H1] H2].
  unfold cursor_pushed, lastn, cap, size in *.
  rewrite skipn_skipn, !length_app, length_skipn. simpl.
  replace (skipn (Z.to_nat (_logPointer s)) (_logs s) ++ [e])%list
    with (skipn (Z.to_nat (_logPointer s)) (_logs s ++ [e]))
    by (rewrite skipn_app;
        replace (Z.to_nat (_logPointer s) - List.length (_logs s))%nat with 0%nat by lia;
        reflexivity).
  rewrite skipn_skipn. f_equal.
  destruct (Z.eqb_spec (Z.of_nat (List.length (_logs s))) (_logLength s));
    destruct (Z.gtb_spec (_logPointer s) 0); lia.
Qed.

(** ** Guarded bodies on a free lock *)

(** A body that neither reads nor writes [_mutex] runs under the guard as it
    would without it, when the lock is free at the call. *)
Lemma lock_guard_commutes {A} fuel (body : Log -> option (Log * A)) s :
  free s ->
  (forall m, body (set_mutex m s) =
             match body s with
             | None => None
             | Some (s', r) => Some (set_mutex m s', r)
             end) ->
  (forall s' r, body s = Some (s', r) -> _mutex s' = _mutex s) ->
  lock_guard (S fuel) body s = body s.
Proof.
  intros Hfree Hcomm Hmutex.
  rewrite (lock_guard_free fuel body s Hfree), Hcomm.
  destruct (body s) as [[s' r]|] eqn:Hb; [ | reflexivity ].
  assert (Hfree' : free s') by (unfold free; rewrite (Hmutex s' r eq_refl); exact Hfree).
  destruct s' as [[b] ? ? ? ? ? ? ? ? ?]. unfold free in Hfree'. simpl in Hfree'. subst b.
  reflexivity.
Qed.

Lemma push_evict_set_mutex e m s :
  push_evict e (set_mutex m s) = set_mutex m (push_evict e s).
Proof.
  unfold push_evict. simpl.
  destruct (size (push_back e (_logs s)) >? size_t_of (_logLength s)); reflexivity.
Qed.

Lemma rec_sinks_set_mutex t g p args m s :
  rec_sinks t g p args (set_mutex m s) = set_mutex m (rec_sinks t g p args s).
Proof.
  unfold rec_sinks. simpl.
  destruct (_logToFile s); [ destruct g | ]; simpl;
    match goal with |- context [Priority_geb ?a ?b] => destruct (Priority_geb a b) end;
    reflexivity.
Qed.

Lemma rec_set_mutex t g p args m s :
  rec t g p args (set_mutex m s) = set_mutex m (rec t g p args s).
Proof.
  rewrite !rec_push_evict, rec_sinks_set_mutex, push_evict_set_mutex. reflexivity.
Qed.

Lemma rec_mutex t g p args s : _mutex (rec t g p args s) = _mutex s.
Proof.
  rewrite rec_push_evict.
  destruct (push_evict_frame (rec_timedMsg t p args, p) (rec_sinks t g p args s)) as [-> _].
  apply rec_sinks_frame.
Qed.

Lemma operator_call_free fuel t g p args s :
  free s -> operator_call (S fuel) t g p args s = Some (rec t g p args s, tt).
Proof.
  intros H. unfold operator_call.
  apply (lock_guard_commutes fuel (fun s => Some (rec t g p args s, tt)));
    [ exact H | | ].
  - intros m. rewrite rec_set_mutex. reflexivity.
  - intros s' r E. injection E as <- _. apply rec_mutex.
Qed.

Lemma operator_shl_free fuel msg s :
  free s ->
  operator_shl (S fuel) msg s =
  Some (set_tempString (addToString (_tempString s) [msg]) s, tt).
Proof.
  intros H. unfold operator_shl.
  apply (lock_guard_commutes fuel
           (fun s => Some (set_tempString (addToString (_tempString s) [msg]) s, tt)));
    [ exact H | | ].
  - reflexivity.
  - intros s' r E. injection E as <- _. reflexivity.
Qed.

Lemma operator_shl_Value_free fuel v s :
  free s ->
  operator_shl_Value (S fuel) v s =
  Some (set_tempString (addToString (_tempString s) [ArgString v]) s, tt).
Proof.
  intros H. unfold operator_shl_Value.
  apply (lock_guard_commutes fuel
           (fun s => Some (set_tempString (addToString (_tempString s) [ArgString v]) s, tt)));
    [ exact H | | ].
  - reflexivity.
  - intros s' r E. injection E as <- _. reflexivity.
Qed.

Lemma operator_shl_Action_free fuel t g a s :
  free s -> operator_shl_Action (S fuel) t g a s = Some (flushed t g s, tt).
Proof.
  intros H. unfold operator_shl_Action. destruct a.
  rewrite lock_guard_commutes; [ reflexivity | exact H | | ].
  - intros m. simpl.
    destruct (Priority_geb (_tempPriority s) (_verbosity s)); [ | reflexivity ].
    rewrite rec_set_mutex. reflexivity.
  - intros s' r E. injection E as <- _. simpl.
    destruct (Priority_geb (_tempPriority s) (_verbosity s)); [ | reflexivity ].
    apply rec_mutex.
Qed.

Lemma operator_shl_Priority_free fuel p s :
  free s -> operator_shl_Priority (S fuel) p s = Some (set_tempPriority p s, tt).
Proof.
  intros H. unfold operator_shl_Priority.
  apply (lock_guard_commutes fuel (fun s => Some (set_tempPriority p s, tt)));
    [ exact H | | ].
  - reflexivity.
  - intros s' r E. injection E as <- _. reflexivity.
Qed.

Lemma getLogs_free fuel ps s :
  free s -> getLogs (S fuel) ps s = Some (s, getLogs_loops (_logs s) ps).
Proof.
  intros H. unfold getLogs.
  apply (lock_guard_commutes fuel (fun s => Some (s, getLogs_loops (_logs s) ps)));
    [ exact H | | ].
  - reflexivity.
  - intros s' r E. injection E as <- _. reflexivity.
Qed.

Lemma setLog_free fuel log p s :
  free s -> setLog (S fuel) log p s = Some (push_evict (log, p) s, tt).
Proof.
  intros H. unfold setLog.
  rewrite lock_guard_commutes; [ reflexivity | exact H | | ].
  - intros m.
    change (Some (push_evict (log, p) (set_mutex m s), tt) =
            Some (set_mutex m (push_evict (log, p) s), tt)).
    rewrite push_evict_set_mutex. reflexivity.
  - intros s' r E.
    change (Some (push_evict (log, p) s, tt) = Some (s', r)) in E.
    injection E as <- _. apply push_evict_frame.
Qed.

(** ** The loop of [getNewLogs] *)

Lemma skipn_nth_error {A} : forall n (l : list A) x,
  nth_error l n = Some x -> skipn n l = x :: skipn (S n) l.
Proof.
  induction n as [|n IH]; intros [|y l] x H; simpl in *; try discriminate.
  - injection H as ->. reflexivity.
  - apply IH. exact H.
Qed.

Lemma getNewLogs_loop_spec : forall fuel i (_logs logs : list entry),
  0 <= i <= size _logs -> size _logs <= INT_MAX ->
  (Z.to_nat (size _logs - i) < fuel)%nat ->
  getNewLogs_loop fuel i _logs logs = Some (logs ++ skipn (Z.to_nat i) _logs)%list.
Proof.
  unfold INT_MAX.
  induction fuel as [|fuel IH]; intros i l acc Hi Hmax Hfuel; [ lia | ].
  simpl.
  rewrite size_t_of_small by lia.
  destruct (Z.ltb_spec i (size l)) as [Hlt|Hge].
  - destruct (nth_error l (Z.to_nat i)) as [e|] eqn:He.
    + rewrite int_of_small by (unfold INT_MAX; lia).
      rewrite IH by lia.
      rewrite (skipn_nth_error _ _ _ He). unfold push_back.
      rewrite <- app_assoc. simpl.
      replace (Z.to_nat (i + 1)) with (S (Z.to_nat i)) by lia. reflexivity.
    + apply nth_error_None in He. unfold size in Hlt. lia.
  - replace i with (size l) by lia. unfold size.
    rewrite Nat2Z.id, skipn_all, app_nil_r. reflexivity.
Qed.

Lemma getNewLogs_free fuel s :
  wf s ->
  getNewLogs (S fuel) s = Some (set_logPointer (size (_logs s)) s, undelivered s).
Proof.
  intros (Hfree & [[H0 H1] H2] & Hc). unfold getNewLogs.
  assert (Hloop : forall m,
    getNewLogs_loop (S (List.length (_logs (set_mutex m s))))
      (_logPointer (set_mutex m s)) (_logs (set_mutex m s)) [] = Some (undelivered s)).
  { intros m. simpl _logs. simpl _logPointer.
    rewrite getNewLogs_loop_spec; [ reflexivity | exact Hc | lia | ].
    unfold cursor_ok, size in *. lia. }
  assert (Hloop' : getNewLogs_loop (S (List.length (_logs s))) (_logPointer s) (_logs s) []
                   = Some (undelivered s)).
  { specialize (Hloop (_mutex s)). destruct s; exact Hloop. }
  rewrite lock_guard_commutes; [ | exact Hfree | | ].
  - rewrite Hloop'. rewrite int_of_small; [ reflexivity | ].
    pose proof (size_nonneg (_logs s)). unfold INT_MAX in *. lia.
  - intros m. rewrite Hloop, Hloop'. reflexivity.
  - intros s' r. rewrite Hloop'. intros E. injection E as <- _. reflexivity.
Qed.

(** ** One call on a well-formed state *)

Lemma wf_ext s s' :
  _mutex s' = _mutex s -> _logs s' = _logs s ->
  _logLength s' = _logLength s -> _logPointer s' = _logPointer s ->
  wf s -> wf s'.
Proof.
  unfold wf, free, bounded, cursor_ok. intros -> -> -> ->. exact (fun H => H).
Qed.

Lemma lastn_nothing_new s :
  bounded s -> _logs s = lastn (cap s) (_logs s ++ []).
Proof.
  intros [[H0 H1] H2]. rewrite app_nil_r, lastn_all; [ reflexivity | ].
  unfold cap, size in *. lia.
Qed.

Lemma undelivered_nothing_new s :
  bounded s -> undelivered s = lastn (cap s) (undelivered s ++ []).
Proof.
  intros [[H0 H1] H2]. rewrite app_nil_r, lastn_all; [ reflexivity | ].
  unfold undelivered, cap, size in *. rewrite length_skipn. lia.
Qed.

Lemma push_evict_spec e s :
  wf s ->
  wf (push_evict e s) /\
  _logLength (push_evict e s) = _logLength s /\
  _logs (push_evict e s) = lastn (cap s) (_logs s ++ [e]) /\
  undelivered (push_evict e s) = lastn (cap s) (undelivered s ++ [e]) /\
  _logPointer (push_evict e s) = cursor_pushed s.
Proof.
  intros (Hf & Hb & Hc).
  destruct (push_evict_frame e s) as (Hm & _ & Hl & _).
  destruct (push_evict_logs e s Hb) as [Hlogs Hsize].
  repeat split.
  - unfold free. rewrite Hm. exact Hf.
  - rewrite Hl. apply Hb.
  - rewrite Hl. apply Hb.
  - rewrite Hl. exact Hsize.
  - apply (push_evict_cursor_ok e s Hb Hc).
  - apply (push_evict_cursor_ok e s Hb Hc).
  - exact Hl.
  - exact Hlogs.
  - apply (push_evict_undelivered e s Hb Hc).
  - apply (push_evict_cursor e s Hb).
Qed.

Lemma rec_spec t g p args s :
  wf s ->
  wf (rec t g p args s) /\
  _logLength (rec t g p args s) = _logLength s /\
  _logs (rec t g p args s) = lastn (cap s) (_logs s ++ [(rec_timedMsg t p args, p)]) /\
  undelivered (rec t g p args s) =
    lastn (cap s) (undelivered s ++ [(rec_timedMsg t p args, p)]) /\
  _logPointer (rec t g p args s) = cursor_pushed s.
Proof.
  intros Hwf. rewrite rec_push_evict.
  destruct (rec_sinks_frame t g p args s) as (Hm & Hl & _ & Hn & Hp & _).
  assert (Hwf' : wf (rec_sinks t g p args s)) by (apply (wf_ext s); assumption).
  destruct (push_evict_spec (rec_timedMsg t p args, p) _ Hwf')
    as (H1 & H2 & H3 & H4 & H5).
  split; [ exact H1 | ].
  split; [ rewrite H2; exact Hn | ].
  split; [ | split ].
  - rewrite H3. unfold cap. rewrite Hn, Hl. reflexivity.
  - rewrite H4. unfold undelivered, cap. rewrite Hl, Hn, Hp. reflexivity.
  - rewrite H5. unfold cursor_pushed. rewrite Hl, Hn, Hp. reflexivity.
Qed.

(** A call that hands nothing to the history and leaves the lock, the
    history, the capacity and the cursor as they were. *)
Ltac nothing_new s Hwf :=
  eexists; eexists; split; [ reflexivity | ];
  split; [ revert Hwf; apply wf_ext; reflexivity | ]; split; [ reflexivity | ];
  split; [ exact (lastn_nothing_new s (proj1 (proj2 Hwf))) | ];
  split; [ intros _; exact (undelivered_nothing_new s (proj1 (proj2 Hwf)))
         | reflexivity ].

(** Every call returns when the lock is free, keeps the state well formed and
    the capacity as it was; the history afterwards consists of the most
    recent entries, the new one included, and a call other than [getNewLogs]
    leaves to be delivered what was to be delivered plus the new entry, as far
    as retained. *)
Lemma step_spec fuel env o s :
  wf s ->
  exists s' r,
    step (S fuel) env o s = Some (s', r) /\
    wf s' /\
    _logLength s' = _logLength s /\
    _logs s' = lastn (cap s) (_logs s ++ appended env o s) /\
    (is_poll o = false ->
     undelivered s' = lastn (cap s) (undelivered s ++ appended env o s)) /\
    _logPointer s' = cursor_after env o s.
Proof.
  intros Hwf. pose proof Hwf as (Hfree & Hb & Hc).
  destruct o as [p args|msg|v|a|p| |ps| | |b|p|log p]; unfold step.
  - rewrite (operator_call_free _ _ _ _ _ _ Hfree). simpl ret.
    destruct (rec_spec (time_c env) (good env) p args s Hwf) as (H1 & H2 & H3 & H4 & H5).
    eexists; eexists; split; [ reflexivity | ].
    split; [ exact H1 | split; [ exact H2 | split; [ exact H3 | ] ] ].
    split; [ intros _; exact H4 | exact H5 ].
  - rewrite (operator_shl_free _ _ _ Hfree). simpl ret.
    nothing_new s Hwf.
  - rewrite (operator_shl_Value_free _ _ _ Hfree). simpl ret.
    nothing_new s Hwf.
  - rewrite (operator_shl_Action_free _ _ _ _ _ Hfree). simpl ret.
    destruct a. unfold flushed, cursor_after, appended.
    destruct (Priority_geb (_tempPriority s) (_verbosity s)).
    + destruct (rec_spec (time_c env) (good env) (_tempPriority s)
                  [ArgString (_tempString s)] s Hwf) as (H1 & H2 & H3 & H4 & H5).
      eexists; eexists; split; [ reflexivity | ].
      split; [ | split; [ exact H2 | split; [ exact H3 | ] ] ].
      * revert H1. apply wf_ext; reflexivity.
      * split; [ intros _; exact H4 | exact H5 ].
    + nothing_new s Hwf.
  - rewrite (operator_shl_Priority_free _ _ _ Hfree). simpl ret.
    nothing_new s Hwf.
  - simpl ret.
    nothing_new s Hwf.
  - rewrite (getLogs_free _ _ _ Hfree). simpl ret.
    nothing_new s Hwf.
  - rewrite (getNewLogs_free _ _ Hwf). simpl ret.
    eexists; eexists; split; [ reflexivity | ].
    split; [ | split; [ reflexivity | split; [ apply (lastn_nothing_new s Hb) | ] ] ].
    + split; [ exact Hfree | split; [ exact Hb | ] ].
      unfold cursor_ok. simpl. pose proof (size_nonneg (_logs s)). lia.
    + split; [ simpl; discriminate | reflexivity ].
  - simpl ret.
    nothing_new s Hwf.
  - simpl ret.
    nothing_new s Hwf.
  - simpl ret.
    nothing_new s Hwf.
  - rewrite (setLog_free _ _ _ _ Hfree). simpl ret.
    destruct (push_evict_spec (log, p) s Hwf) as (H1 & H2 & H3 & H4 & H5).
    eexists; eexists; split; [ reflexivity | ].
    split; [ exact H1 | split; [ exact H2 | split; [ exact H3 | ] ] ].
    split; [ intros _; exact H4 | exact H5 ].
Qed.

(** ** Sequences of calls *)

Lemma run_spec fuel : forall calls s,
  wf s ->
  exists s' rs,
    run (S fuel) calls s = Some (s', rs) /\
    wf s' /\
    _logLength s' = _logLength s /\
    _logs s' = lastn (cap s) (_logs s ++ appended_run (S fuel) calls s) /\
    (no_poll calls = true ->
     undelivered s' = lastn (cap s) (undelivered s ++ appended_run (S fuel) calls s)).
Proof.
  induction calls as [|[env o] calls IH]; intros s Hwf.
  - exists s, []. split; [ reflexivity | ]. split; [ exact Hwf | ].
    split; [ reflexivity | ].
    split; [ apply lastn_nothing_new | intros _; apply undelivered_nothing_new ];
      apply Hwf.
  - destruct (step_spec fuel env o s Hwf) as (s1 & r & Hstep & Hwf1 & Hn1 & Hl1 & Hu1 & _).
    destruct (IH s1 Hwf1) as (s' & rs & Hrun & Hwf' & Hn' & Hl' & Hu').
    exists s', (r :: rs).
    assert (Hcap : cap s1 = cap s) by (unfold cap; rewrite Hn1; reflexivity).
    simpl run. simpl appended_run. rewrite Hstep, Hrun.
    split; [ reflexivity | ]. split; [ exact Hwf' | ].
    split; [ rewrite Hn'; exact Hn1 | ].
    split.
    + rewrite Hl', Hl1, Hcap, lastn_app_lastn, app_assoc. reflexivity.
    + simpl. intros Hnp. apply andb_prop in Hnp as [Ho Hrest].
      apply negb_true_iff in Ho.
      rewrite (Hu' Hrest), (Hu1 Ho), Hcap, lastn_app_lastn, app_assoc. reflexivity.
Qed.

Lemma wf_Log_new cout file : wf (Log_new cout file).
Proof.
  unfold wf, free, bounded, cursor_ok, INT_MAX, size. simpl. lia.
Qed.

Lemma wf_set_logLength n s :
  wf s -> size (_logs s) <= n <= INT_MAX -> wf (set_logLength n s).
Proof.
  unfold wf, free, bounded, cursor_ok. simpl.
  intros (Hf & Hb & Hc) Hn. pose proof (size_nonneg (_logs s)).
  split; [ exact Hf | ]. split; [ lia | exact Hc ].
Qed.

(** ** The history is bounded and holds the most recent entries *)

(** C1.  Started from a well-formed state (the lock free, the capacity a
    non-negative [int], the history within the capacity, the cursor inside the
    history, as in the freshly built object), every sequence of calls returns,
    and afterwards the history is no longer than the capacity and consists of
    the last capacity-many of the entries it held before followed by the
    entries handed to it by [operator()], [operator<<(endl)] and [setLog], in
    that order.  When one such call finds the history full, the history
    afterwards is the old one with the new entry at the back and the oldest
    entry removed. *)
Theorem history_bounded_most_recent fuel s :
  wf s ->
  (forall calls,
     exists s' rs,
       run (S fuel) calls s = Some (s', rs) /\
       _logLength s' = _logLength s /\
       size (_logs s') <= _logLength s /\
       _logs s' = lastn (cap s) (_logs s ++ appended_run (S fuel) calls s)) /\
  (forall env o e,
     appended env o s = [e] ->
     exists s' r,
       step (S fuel) env o s = Some (s', r) /\
       size (_logs s') <= _logLength s /\
       (size (_logs s) < _logLength s -> _logs s' = (_logs s ++ [e])%list) /\
       (size (_logs s) = _logLength s -> _logs s' = tl (_logs s ++ [e]))).
Proof.
  intros Hwf. split.
  - intros calls.
    destruct (run_spec fuel calls s Hwf) as (s' & rs & Hrun & Hwf' & Hn & Hl & _).
    exists s', rs. repeat split; try assumption.
    rewrite <- Hn. apply Hwf'.
  - intros env o e He.
    destruct (step_spec fuel env o s Hwf) as (s' & r & Hstep & Hwf' & Hn & Hl & _).
    exists s', r. rewrite He in Hl.
    destruct Hwf as (_ & [[H0 H1] H2] & _).
    split; [ exact Hstep | ]. split; [ rewrite <- Hn; apply Hwf' | ]. split.
    + intros Hlt. rewrite Hl. apply lastn_all.
      rewrite length_app. simpl. unfold cap, size in *. lia.
    + intros Heq. rewrite Hl. apply lastn_snoc_full.
      unfold cap, size in *. lia.
Qed.

Lemma history_bounded_most_recent_witness :
  exists s' rs,
    run 1 [(example_env, OpSetLog "A" DEBUGGING); (example_env, OpSetLog "B" MESSAGE);
           (example_env, OpSetLog "C" WARNING); (example_env, OpSetLog "D" ERROR);
           (example_env, OpSetLog "E" NONE)] example_log = Some (s', rs) /\
    size (_logs s') <= 3 /\
    snd (getFullLogs s')
    = [("C"%string, WARNING); ("D"%string, ERROR); ("E"%string, NONE)].
Proof.
  destruct (proj1 (history_bounded_most_recent 0 example_log
                     (wf_set_logLength 3 _ (wf_Log_new EmptyString EmptyString)
                        ltac:(unfold INT_MAX, size; simpl; lia)))
              [(example_env, OpSetLog "A" DEBUGGING); (example_env, OpSetLog "B" MESSAGE);
               (example_env, OpSetLog "C" WARNING); (example_env, OpSetLog "D" ERROR);
               (example_env, OpSetLog "E" NONE)])
    as (s' & rs & H1 & _ & H2 & H3).
  exists s', rs. split; [ exact H1 | ]. split; [ exact H2 | exact H3 ].
Defined.

(** ** The read cursor *)

(** C2.  Started from a well-formed state, every public call returns and
    leaves the cursor between 0 and the length of the history (and the state
    well formed, so this holds after every call of a sequence); when a call
    hands an entry to a full history, so that the oldest entry is removed, the
    cursor afterwards is one less if it was greater than zero and zero
    otherwise. *)
Theorem cursor_invariant fuel s :
  wf s ->
  (forall env o,
     exists s' r,
       step (S fuel) env o s = Some (s', r) /\
       wf s' /\
       0 <= _logPointer s' <= size (_logs s') /\
       (forall e,
          appended env o s = [e] -> size (_logs s) = _logLength s ->
          _logs s' = tl (_logs s ++ [e]) /\
          _logPointer s' = if _logPointer s >? 0 then _logPointer s - 1 else 0)) /\
  (forall calls,
     exists s' rs,
       run (S fuel) calls s = Some (s', rs) /\
       0 <= _logPointer s' <= size (_logs s')).
Proof.
  intros Hwf. split.
  - intros env o.
    destruct (step_spec fuel env o s Hwf) as (s' & r & Hstep & Hwf' & Hn & Hl & _ & Hc).
    exists s', r. split; [ exact Hstep | ]. split; [ exact Hwf' | ].
    split; [ apply Hwf' | ].
    intros e He Hfull. rewrite He in Hl. split.
    + rewrite Hl. apply lastn_snoc_full. unfold cap, size in *. lia.
    + rewrite Hc. unfold cursor_after. rewrite He.
      destruct o; try discriminate He; simpl is_poll; cbv iota;
        unfold cursor_pushed; rewrite Hfull, Z.eqb_refl;
        destruct Hwf as (_ & _ & [Hc0 Hc1]);
        destruct (Z.gtb_spec (_logPointer s) 0); lia.
  - intros calls.
    destruct (run_spec fuel calls s Hwf) as (s' & rs & Hrun & Hwf' & _).
    exists s', rs. split; [ exact Hrun | apply Hwf' ].
Qed.

Lemma cursor_invariant_witness :
  exists s' rs,
    run 1 [(example_env, OpSetLog "A" DEBUGGING); (example_env, OpGetNewLogs);
           (example_env, OpRecord WARNING [ArgCStr "B"]); (example_env, OpGetFullLogs)]
      (Log_new EmptyString EmptyString) = Some (s', rs) /\
    0 <= _logPointer s' <= size (_logs s').
Proof.
  apply (proj2 (cursor_invariant 0 (Log_new EmptyString EmptyString)
                  (wf_Log_new EmptyString EmptyString))).
Defined.

(** ** Incremental delivery *)

(** C3.  On a well-formed state [getNewLogs] returns the entries of the
    history from the cursor to the end, oldest first, and moves the cursor to
    the length of the history; a second call right after it returns nothing;
    after any sequence of calls other than [getNewLogs] it returns what was
    still to be delivered followed by the entries handed to the history since,
    in order, cut down to the most recent capacity-many (the ones retained):
    nothing twice and nothing retained left out.  With capacity 3: A, B,
    [getNewLogs] gives A, B; then C, D, E, [getNewLogs] gives C, D, E. *)
Theorem getNewLogs_delivers fuel s :
  wf s ->
  getNewLogs (S fuel) s =
    Some (set_logPointer (size (_logs s)) s,
          skipn (Z.to_nat (_logPointer s)) (_logs s)) /\
  (forall env1 env2,
     run (S fuel) [(env1, OpGetNewLogs); (env2, OpGetNewLogs)] s =
       Some (set_logPointer (size (_logs s)) s,
             [RNew (skipn (Z.to_nat (_logPointer s)) (_logs s)); RNew []])) /\
  (forall calls,
     no_poll calls = true ->
     exists s1 rs s2,
       run (S fuel) calls s = Some (s1, rs) /\
       getNewLogs (S fuel) s1 =
         Some (s2, lastn (cap s)
                     (skipn (Z.to_nat (_logPointer s)) (_logs s)
                        ++ appended_run (S fuel) calls s))) /\
  option_map snd
    (run (S fuel)
       [(example_env, OpSetLog "A" DEBUGGING); (example_env, OpSetLog "B" MESSAGE);
        (example_env, OpGetNewLogs);
        (example_env, OpSetLog "C" WARNING); (example_env, OpSetLog "D" ERROR);
        (example_env, OpSetLog "E" NONE);
        (example_env, OpGetNewLogs)]
       example_log) =
  Some [RVoid; RVoid; RNew [("A"%string, DEBUGGING); ("B"%string, MESSAGE)];
        RVoid; RVoid; RVoid;
        RNew [("C"%string, WARNING); ("D"%string, ERROR); ("E"%string, NONE)]].
Proof.
  intros Hwf.
  assert (Hpoll := getNewLogs_free fuel s Hwf).
  assert (Hwf1 : wf (set_logPointer (size (_logs s)) s)).
  { destruct Hwf as (Hf & Hb & Hc). split; [ exact Hf | split; [ exact Hb | ] ].
    unfold cursor_ok. simpl. pose proof (size_nonneg (_logs s)). lia. }
  split; [ exact Hpoll | ]. split; [ | split ].
  - intros env1 env2. simpl run. rewrite Hpoll. cbn [ret].
    rewrite (getNewLogs_free fuel _ Hwf1). cbn [ret].
    unfold undelivered. simpl _logPointer. simpl _logs.
    unfold size. rewrite Nat2Z.id, skipn_all. reflexivity.
  - intros calls Hnp.
    destruct (run_spec fuel calls s Hwf) as (s1 & rs & Hrun & Hwf' & _ & _ & Hu).
    exists s1, rs, (set_logPointer (size (_logs s1)) s1).
    split; [ exact Hrun | ].
    rewrite (getNewLogs_free fuel s1 Hwf'), (Hu Hnp). reflexivity.
  - destruct fuel; vm_compute; reflexivity.
Qed.

Lemma getNewLogs_delivers_witness :
  getNewLogs 1 example_log = Some (example_log, []).
Proof.
  apply (getNewLogs_delivers 0 example_log).
  unfold wf, free, bounded, cursor_ok, INT_MAX, size. simpl. lia.
Defined.

(** ** Streaming *)

Lemma append_assoc (a b c : string) : ((a ++ b) ++ c = a ++ (b ++ c))%string.
Proof. induction a as [|x a IH]; simpl; [ reflexivity | rewrite IH; reflexivity ]. Qed.

Lemma append_empty_r (a : string) : (a ++ "" = a)%string.
Proof. induction a as [|x a IH]; simpl; [ reflexivity | rewrite IH; reflexivity ]. Qed.

(** [addToString] appends the string forms of the arguments, in order. *)
Lemma addToString_app : forall args str,
  addToString str args = (str ++ addToString EmptyString args)%string.
Proof.
  induction args as [|a args IH]; intros str.
  - simpl. symmetry. apply append_empty_r.
  - destruct a; simpl; rewrite IH; symmetry; rewrite IH, append_assoc; reflexivity.
Qed.

Lemma rec_timedMsg_body t p args :
  rec_timedMsg t p args
  = (t ++ " / " ++ rec_type p ++ " / " ++ addToString EmptyString args)%string.
Proof.
  unfold rec_timedMsg. rewrite addToString_app, !append_assoc. reflexivity.
Qed.

Lemma Priority_geb_le p q :
  Priority_geb p q = true <-> Priority_val q <= Priority_val p.
Proof. unfold Priority_geb. apply Z.leb_le. Qed.

Lemma Priority_geb_lt p q :
  Priority_geb p q = false <-> Priority_val p < Priority_val q.
Proof. unfold Priority_geb. apply Z.leb_gt. Qed.

(** C4.  Called with the lock free, [operator<<(Log::endl)] returns; when the
    pending priority is at least the verbosity the state afterwards is the one
    [rec] leaves for the pending priority and the accumulated buffer, and when
    it is below the verbosity nothing but the buffer and the pending priority
    changes (no entry, no output); in both cases the buffer is empty and the
    pending priority [MESSAGE] afterwards.  Streaming foo and bar into an
    empty buffer and flushing with the pending priority at least the verbosity
    hands to the history the single entry whose body is foobar. *)
Theorem stream_flush fuel t g s :
  free s ->
  exists s',
    operator_shl_Action (S fuel) t g endl s = Some (s', tt) /\
    _tempString s' = EmptyString /\
    _tempPriority s' = MESSAGE /\
    (Priority_val (_verbosity s) <= Priority_val (_tempPriority s) ->
     s' = set_tempPriority MESSAGE
            (set_tempString EmptyString
               (rec t g (_tempPriority s) [ArgString (_tempString s)] s))) /\
    (Priority_val (_tempPriority s) < Priority_val (_verbosity s) ->
     s' = set_tempPriority MESSAGE (set_tempString EmptyString s)) /\
    (wf s -> _tempString s = EmptyString ->
     Priority_val (_verbosity s) <= Priority_val (_tempPriority s) ->
     forall env1 env2,
     exists s'' rs,
       run (S fuel)
         [(env1, OpShl (ArgCStr "foo")); (env2, OpShl (ArgCStr "bar"));
          (mkEnv t g, OpShlAction endl)] s = Some (s'', rs) /\
       _tempString s'' = EmptyString /\
       _logs s'' =
         lastn (cap s)
           (_logs s ++
            [((t ++ " / " ++ rec_type (_tempPriority s) ++ " / " ++ "foobar")%string,
              _tempPriority s)])).
Proof.
  intros Hfree. exists (flushed t g s).
  split; [ apply (operator_shl_Action_free _ _ _ _ _ Hfree) | ].
  split; [ reflexivity | ]. split; [ reflexivity | ].
  split; [ | split ].
  - intros Hge. apply Priority_geb_le in Hge. unfold flushed. rewrite Hge. reflexivity.
  - intros Hlt. apply Priority_geb_lt in Hlt. unfold flushed. rewrite Hlt. reflexivity.
  - intros Hwf Hempty Hge env1 env2.
    set (s1 := set_tempString (addToString (_tempString s) [ArgCStr "foo"]) s).
    set (s2 := set_tempString (addToString (_tempString s1) [ArgCStr "bar"]) s1).
    assert (Hwf2 : wf s2) by (revert Hwf; apply wf_ext; reflexivity).
    assert (Hfree2 : free s2) by apply Hwf2.
    exists (flushed t g s2), [RVoid; RVoid; RVoid].
    split; [ | split; [ reflexivity | ] ].
    + simpl run.
      rewrite (operator_shl_free fuel _ s Hfree). cbn [ret]. fold s1.
      rewrite (operator_shl_free fuel _ s1 Hfree2). cbn [ret]. fold s2.
      rewrite (operator_shl_Action_free fuel _ _ _ s2 Hfree2). reflexivity.
    + apply Priority_geb_le in Hge. unfold flushed.
      change (_tempPriority s2) with (_tempPriority s).
      change (_verbosity s2) with (_verbosity s). rewrite Hge.
      destruct (rec_spec t g (_tempPriority s) [ArgString (_tempString s2)] s2 Hwf2)
        as (_ & _ & Hl & _).
      cbn [_logs set_tempPriority set_tempString]. rewrite Hl, rec_timedMsg_body.
      change (_logs s2) with (_logs s). change (cap s2) with (cap s).
      unfold s2, s1. simpl _tempString. rewrite Hempty. reflexivity.
Qed.

Lemma stream_flush_witness :
  exists s'' rs,
    run 1 [(example_env, OpShl (ArgCStr "foo")); (example_env, OpShl (ArgCStr "bar"));
           (example_env, OpShlAction endl)] example_log = Some (s'', rs) /\
    _tempString s'' = EmptyString /\
    _logs s'' = [("2016-01-01T00:00:00 / [MESSAGE] / foobar"%string, MESSAGE)].
Proof.
  destruct (stream_flush 0 "2016-01-01T00:00:00" true example_log eq_refl)
    as (s' & _ & _ & _ & _ & _ & H).
  apply (H (wf_set_logLength 3 _ (wf_Log_new EmptyString EmptyString)
              ltac:(unfold INT_MAX, size; simpl; lia))
           eq_refl ltac:(simpl; lia) example_env example_env).
Defined.

(** ** The one-shot record path *)

Lemma lastn_snoc_pos {A} n (l : list A) x :
  (0 < n)%nat -> lastn n (l ++ [x]) = (lastn (n - 1) l ++ [x])%list.
Proof.
  intros Hn. unfold lastn. rewrite length_app, skipn_app. simpl List.length.
  replace (List.length l + 1 - n - List.length l)%nat with 0%nat by lia.
  replace (List.length l + 1 - n)%nat with (List.length l - (n - 1))%nat by lia.
  reflexivity.
Qed.

Lemma rec_cout t g p args s :
  std_cout (rec t g p args s) =
  if Priority_geb p (_verbosity s)
  then std_cout (toConsole (rec_timedMsg t p args) s)
  else std_cout s.
Proof.
  rewrite rec_push_evict.
  destruct (push_evict_frame (rec_timedMsg t p args, p) (rec_sinks t g p args s))
    as (_ & _ & _ & _ & _ & _ & -> & _).
  unfold rec_sinks.
  destruct (_logToFile s); [ destruct g | ]; cbn [_verbosity set_file];
    destruct (Priority_geb p (_verbosity s)); reflexivity.
Qed.

Lemma rec_file t g p args s :
  log_file (rec t g p args s) =
  if _logToFile s
  then (if g then log_file s ++ rec_timedMsg t p args ++ nl else log_file s)%string
  else log_file s.
Proof.
  rewrite rec_push_evict.
  destruct (push_evict_frame (rec_timedMsg t p args, p) (rec_sinks t g p args s))
    as (_ & _ & _ & _ & _ & _ & _ & ->).
  unfold rec_sinks.
  destruct (_logToFile s); [ destruct g | ]; cbn [_verbosity set_file];
    destruct (Priority_geb p (_verbosity s)); reflexivity.
Qed.

Lemma toConsole_cout message s :
  exists text, std_cout (toConsole message s) = (std_cout s ++ text ++ nl)%string.
Proof. unfold toConsole. cbn [std_cout set_cout]. eexists. reflexivity. Qed.

(** C5.  Called on a well-formed state with room for at least one entry,
    [operator()] returns, and the new entry is in what [getFullLogs] returns
    afterwards whatever its priority; when the priority is below the verbosity
    nothing is written to the console, and when it is at least the verbosity
    one line is written to the console, the one [toConsole] prints for the
    text.  For instance an [ERROR] at the default verbosity prints the text
    with the tag in red. *)
Theorem record_console_filter fuel t g p args s :
  wf s -> 0 < _logLength s ->
  exists s',
    operator_call (S fuel) t g p args s = Some (s', tt) /\
    In (rec_timedMsg t p args, p) (snd (getFullLogs s')) /\
    (Priority_val p < Priority_val (_verbosity s) -> std_cout s' = std_cout s) /\
    (Priority_val (_verbosity s) <= Priority_val p ->
     std_cout s' = std_cout (toConsole (rec_timedMsg t p args) s) /\
     exists text, std_cout s' = (std_cout s ++ text ++ nl)%string) /\
    option_map (fun r => std_cout (fst r))
      (operator_call (S fuel) "T" g ERROR [ArgCStr "disk "; ArgNum 95; ArgCStr "% full"]
         (Log_new EmptyString EmptyString)) =
    Some ("T /  " ++ esc ++ "[31;1m[ERROR]" ++ esc ++ "[0m  / disk 95% full" ++ nl)%string.
Proof.
  intros Hwf Hpos. exists (rec t g p args s).
  split; [ apply operator_call_free; apply Hwf | ].
  destruct (rec_spec t g p args s Hwf) as (_ & _ & Hl & _).
  split; [ | split; [ | split ] ].
  - simpl. rewrite Hl, lastn_snoc_pos by (unfold cap; lia).
    apply in_or_app. right. left. reflexivity.
  - intros Hlt. apply Priority_geb_lt in Hlt. rewrite rec_cout, Hlt. reflexivity.
  - intros Hge. apply Priority_geb_le in Hge. rewrite rec_cout, Hge.
    split; [ reflexivity | apply toConsole_cout ].
  - rewrite operator_call_free by apply wf_Log_new.
    destruct g; vm_compute; reflexivity.
Qed.

Lemma record_console_filter_witness :
  exists s',
    operator_call 1 "T" true DEBUGGING [ArgCStr "x"]
      (set_verbosity WARNING (Log_new EmptyString EmptyString)) = Some (s', tt) /\
    In ("T /  [DEBUG]  / x"%string, DEBUGGING) (snd (getFullLogs s')) /\
    std_cout s' = EmptyString.
Proof.
  destruct (record_console_filter 0 "T" true DEBUGGING [ArgCStr "x"]
              (set_verbosity WARNING (Log_new EmptyString EmptyString))
              (wf_Log_new EmptyString EmptyString) eq_refl)
    as (s' & H1 & H2 & H3 & _).
  exists s'. split; [ exact H1 | ]. split; [ exact H2 | ].
  apply H3. simpl. lia.
Defined.

(** ** Retrieval by priority *)

Lemma Priority_eqb_eq p q : Priority_eqb p q = true <-> p = q.
Proof.
  unfold Priority_eqb. rewrite Z.eqb_eq. split; [ | intros ->; reflexivity ].
  destruct p, q; simpl; intros H; try reflexivity; discriminate H.
Qed.

Lemma getLogs_inner (log : entry) : forall priorities logs,
  fold_left
    (fun logs p => if Priority_eqb (snd log) p then push_back (fst log) logs else logs)
    priorities logs
  = (logs ++ repeat (fst log) (times priorities log))%list.
Proof.
  unfold times.
  induction priorities as [|q ps IH]; intros acc; simpl.
  - symmetry. apply app_nil_r.
  - rewrite IH. destruct (Priority_eq_dec q (snd log)) as [->|Hne].
    + replace (Priority_eqb (snd log) (snd log)) with true
        by (symmetry; apply Priority_eqb_eq; reflexivity).
      unfold push_back. rewrite <- app_assoc. reflexivity.
    + destruct (Priority_eqb (snd log) q) eqn:E; [ | reflexivity ].
      apply Priority_eqb_eq in E. congruence.
Qed.

Lemma getLogs_loops_spec priorities : forall _logs,
  getLogs_loops _logs priorities
  = flat_map (fun log => repeat (fst log) (times priorities log)) _logs.
Proof.
  unfold getLogs_loops. intros l.
  change (flat_map (fun log => repeat (fst log) (times priorities log)) l)
    with ([] ++ flat_map (fun log => repeat (fst log) (times priorities log)) l)%list.
  generalize (@nil string).
  induction l as [|log l IH]; intros acc; simpl.
  - symmetry. apply app_nil_r.
  - rewrite getLogs_inner, IH, app_assoc. reflexivity.
Qed.

Lemma in_repeat {A} (x y : A) n : In y (repeat x n) <-> y = x /\ (0 < n)%nat.
Proof.
  split.
  - intros H. split; [ apply (repeat_spec n x y H) | destruct n; [ destruct H | lia ] ].
  - intros [-> Hn]. destruct n; [ lia | left; reflexivity ].
Qed.

Lemma times_NoDup priorities log :
  NoDup priorities ->
  times priorities log = if existsb (Priority_eqb (snd log)) priorities then 1%nat else 0%nat.
Proof.
  unfold times. intros Hnd.
  destruct (existsb (Priority_eqb (snd log)) priorities) eqn:E.
  - apply existsb_exists in E as (q & Hq & Heq). apply Priority_eqb_eq in Heq. subst q.
    apply (count_occ_In Priority_eq_dec) in Hq.
    pose proof (proj1 (NoDup_count_occ Priority_eq_dec priorities) Hnd (snd log)). lia.
  - apply (count_occ_not_In Priority_eq_dec). intros Hin.
    assert (existsb (Priority_eqb (snd log)) priorities = true)
      by (apply existsb_exists; exists (snd log); split;
          [ exact Hin | apply Priority_eqb_eq; reflexivity ]).
    congruence.
Qed.

(** C6.  Called with the lock free, [getLogs] returns and leaves the state as
    it was.  What it returns goes through the history in order and gives the
    text of an entry once for every occurrence of the entry's priority among
    the nominated priorities: a text is returned exactly when it is the text
    of an entry whose priority is nominated, and when no priority is nominated
    twice the result is the texts of the matching entries, each once, in
    history order. *)
Theorem getLogs_filters fuel priorities s :
  free s ->
  exists logs,
    getLogs (S fuel) priorities s = Some (s, logs) /\
    logs = flat_map (fun log => repeat (fst log) (times priorities log)) (_logs s) /\
    (forall text,
       In text logs <-> exists p, In (text, p) (_logs s) /\ In p priorities) /\
    (NoDup priorities ->
     logs = map fst (filter (fun log => existsb (Priority_eqb (snd log)) priorities)
                       (_logs s))).
Proof.
  intros Hfree. exists (getLogs_loops (_logs s) priorities).
  split; [ apply (getLogs_free _ _ _ Hfree) | ].
  rewrite getLogs_loops_spec. split; [ reflexivity | ]. split.
  - intros text. rewrite in_flat_map. split.
    + intros ([text' p] & Hin & Hrep). apply in_repeat in Hrep as [-> Hpos].
      exists p. split; [ exact Hin | ].
      apply (count_occ_In Priority_eq_dec). exact Hpos.
    + intros (p & Hin & Hp). exists (text, p). split; [ exact Hin | ].
      apply in_repeat. split; [ reflexivity | ].
      apply (count_occ_In Priority_eq_dec) in Hp. exact Hp.
  - intros Hnd. induction (_logs s) as [|log l IH]; simpl; [ reflexivity | ].
    rewrite IH, (times_NoDup _ _ Hnd).
    destruct (existsb (Priority_eqb (snd log)) priorities); reflexivity.
Qed.

Lemma getLogs_filters_witness :
  exists logs,
    getLogs 1 [WARNING; ERROR]
      (set_logs [("a"%string, WARNING); ("b"%string, MESSAGE); ("c"%string, ERROR);
                 ("d"%string, WARNING)] (Log_new EmptyString EmptyString))
    = Some (set_logs [("a"%string, WARNING); ("b"%string, MESSAGE); ("c"%string, ERROR);
                      ("d"%string, WARNING)] (Log_new EmptyString EmptyString), logs) /\
    logs = ["a"%string; "c"%string; "d"%string].
Proof.
  destruct (getLogs_filters 0 [WARNING; ERROR]
              (set_logs [("a"%string, WARNING); ("b"%string, MESSAGE); ("c"%string, ERROR);
                         ("d"%string, WARNING)] (Log_new EmptyString EmptyString))
              eq_refl) as (logs & H1 & H2 & _).
  exists logs. split; [ exact H1 | ]. rewrite H2. reflexivity.
Defined.

(** ** The stored text *)

(** C7.  Called on a well-formed state with room for at least one entry,
    [operator()] returns and the newest entry of the history is the pair of
    the priority and the text made of the time stamp, the tag of the priority
    and the string forms of the arguments in order, separated by space, slash,
    space.  The tags of [MESSAGE], [DEBUGGING], [WARNING] and [ERROR] are the
    four strings below, each nine characters long. *)
Theorem record_text_format fuel t g p args s :
  wf s -> 0 < _logLength s ->
  exists s',
    operator_call (S fuel) t g p args s = Some (s', tt) /\
    last (_logs s') (EmptyString, NONE)
    = ((t ++ " / " ++ rec_type p ++ " / " ++ addToString EmptyString args)%string, p) /\
    rec_type MESSAGE = "[MESSAGE]"%string /\
    rec_type DEBUGGING = " [DEBUG] "%string /\
    rec_type WARNING = "[WARNING]"%string /\
    rec_type ERROR = " [ERROR] "%string /\
    (p <> NONE -> String.length (rec_type p) = 9%nat).
Proof.
  intros Hwf Hpos. exists (rec t g p args s).
  split; [ apply operator_call_free; apply Hwf | ].
  destruct (rec_spec t g p args s Hwf) as (_ & _ & Hl & _).
  split.
  - rewrite Hl, lastn_snoc_pos by (unfold cap; lia).
    rewrite last_last, rec_timedMsg_body. reflexivity.
  - repeat split; try reflexivity.
    destruct p; intros Hp; try reflexivity. contradiction Hp. reflexivity.
Qed.

Lemma record_text_format_witness :
  exists s',
    operator_call 1 "2016-01-01T00:00:00" false WARNING
      [ArgCStr "frame "; ArgNum 42; ArgString " dropped"]
      (Log_new EmptyString EmptyString) = Some (s', tt) /\
    last (_logs s') (EmptyString, NONE)
    = ("2016-01-01T00:00:00 / [WARNING] / frame 42 dropped"%string, WARNING).
Proof.
  destruct (record_text_format 0 "2016-01-01T00:00:00" false WARNING
              [ArgCStr "frame "; ArgNum 42; ArgString " dropped"]
              (Log_new EmptyString EmptyString)
              (wf_Log_new EmptyString EmptyString) eq_refl)
    as (s' & H1 & H2 & _).
  exists s'. split; [ exact H1 | exact H2 ].
Defined.

(** ** Searching and replacing in strings *)

Lemma length_append (a b : string) :
  String.length (a ++ b) = (String.length a + String.length b)%nat.
Proof. induction a as [|c a IH]; simpl; [ reflexivity | rewrite IH; reflexivity ]. Qed.

Lemma substring_all (s : string) : substring 0 (String.length s) s = s.
Proof. induction s as [|c s IH]; simpl; [ reflexivity | rewrite IH; reflexivity ]. Qed.

Lemma substring_head : forall (s : string) n,
  (substring 0 n s ++ substring n (String.length s - n) s)%string = s.
Proof.
  induction s as [|c s IH]; intros [|n]; simpl; try reflexivity.
  - rewrite substring_all. reflexivity.
  - rewrite IH. reflexivity.
Qed.

Lemma substring_tail : forall (s : string) n len,
  (substring n len s ++ substring (n + len) (String.length s - (n + len)) s)%string
  = substring n (String.length s - n) s.
Proof.
  induction s as [|c s IH]; intros [|n] [|len]; simpl; try reflexivity.
  - pose proof (substring_head s len) as H. simpl in H. rewrite H, substring_all.
    reflexivity.
  - apply (IH n 0%nat).
  - apply (IH n (S len)).
Qed.

(** A string is its part before a position, the part of a given length from
    there, and the rest. *)
Lemma substring_split3 (s : string) pos len :
  s = (substring 0 pos s ++ substring pos len s
         ++ substring (pos + len) (String.length s - (pos + len)) s)%string.
Proof. rewrite substring_tail, substring_head. reflexivity. Qed.

Lemma substring_prefix : forall (pat post : string),
  substring 0 (String.length pat) (pat ++ post) = pat.
Proof.
  induction pat as [|c pat IH]; intros post; simpl.
  - destruct post; reflexivity.
  - rewrite IH. reflexivity.
Qed.

Lemma substring_skip : forall (pre x : string) k m,
  substring (String.length pre + k) m (pre ++ x) = substring k m x.
Proof. induction pre as [|c pre IH]; intros x k m; simpl; [ reflexivity | apply IH ]. Qed.

Lemma substring_0_app : forall (pre x : string) k,
  substring 0 (String.length pre + k) (pre ++ x) = (pre ++ substring 0 k x)%string.
Proof.
  induction pre as [|c pre IH]; intros x k; simpl; [ reflexivity | rewrite IH; reflexivity ].
Qed.

(** A string in which [find] does not find a pattern has no occurrence of
    it. *)
Lemma find_None_no_occurrence (s pat : string) :
  find s pat = None -> pat <> EmptyString ->
  forall pre post, s <> (pre ++ pat ++ post)%string.
Proof.
  unfold find. intros Hnone Hpat pre post ->.
  apply (index_correct3 0 (String.length pre) pat _ Hnone Hpat); [ lia | ].
  pose proof (substring_skip pre (pat ++ post) 0 (String.length pat)) as H.
  rewrite Nat.add_0_r in H. rewrite H. apply substring_prefix.
Qed.

(** What [toConsole] prints when it finds a tag: the message with the
    occurrence found wrapped in the colour code and the reset code. *)
Lemma replace_found (message tag colour : string) pos :
  find message tag = Some pos ->
  exists pre post,
    message = (pre ++ tag ++ post)%string /\
    replace pos (String.length tag) (esc ++ colour ++ tag ++ esc ++ "[0m") message
    = (pre ++ esc ++ colour ++ tag ++ esc ++ "[0m" ++ post)%string.
Proof.
  unfold find. intros Hfound.
  exists (substring 0 pos message),
         (substring (pos + String.length tag)
            (String.length message - (pos + String.length tag)) message).
  split.
  - pose proof (substring_split3 message pos (String.length tag)) as Hsplit.
    rewrite (index_correct1 _ _ _ _ Hfound) in Hsplit. exact Hsplit.
  - unfold replace. rewrite !append_assoc. reflexivity.
Qed.

Lemma has_char_app c : forall a b : string,
  has_char c (a ++ b) = has_char c a || has_char c b.
Proof.
  induction a as [|x a IH]; intros b; simpl; [ reflexivity | ].
  rewrite IH, orb_assoc. reflexivity.
Qed.

(** A pattern is not found in a string that lacks its first character. *)
Lemma index_absent c (pat : string) : forall s : string,
  has_char c s = false -> index 0 (String c pat) s = None.
Proof.
  induction s as [|b s IH]; simpl; intros H; [ reflexivity | ].
  apply orb_false_elim in H as [Hcb Hs].
  destruct (ascii_dec c b) as [->|_].
  - rewrite Ascii.eqb_refl in Hcb. discriminate Hcb.
  - rewrite (IH Hs). reflexivity.
Qed.

(** Looking for a pattern skips a prefix that lacks its first character. *)
Lemma index_skip c (pat rest : string) : forall pre : string,
  has_char c pre = false ->
  index 0 (String c pat) (pre ++ rest)
  = option_map (Nat.add (String.length pre)) (index 0 (String c pat) rest).
Proof.
  induction pre as [|b pre IH]; intros H.
  - simpl. destruct (index 0 (String c pat) rest); reflexivity.
  - simpl in H. apply orb_false_elim in H as [Hcb Hpre].
    change (String b pre ++ rest)%string with (String b (pre ++ rest)).
    cbn [index]. cbn [prefix].
    destruct (ascii_dec c b) as [->|_].
    + rewrite Ascii.eqb_refl in Hcb. discriminate Hcb.
    + rewrite (IH Hpre). destruct (index 0 (String c pat) rest); reflexivity.
Qed.

Lemma replace_framed (pre x colour : string) k len :
  replace (String.length pre + k) len colour (pre ++ x)
  = (pre ++ substring 0 k x ++ colour
       ++ substring (k + len) (String.length x - (k + len)) x)%string.
Proof.
  unfold replace. rewrite substring_0_app, length_append, <- Nat.add_assoc, substring_skip.
  replace (String.length pre + String.length x - (String.length pre + (k + len)))%nat
    with (String.length x - (k + len))%nat by lia.
  rewrite !append_assoc. reflexivity.
Qed.

(** The searches of [toConsole] in a message that has no opening bracket
    before and after its tag, and the replacement at the position found. *)
Ltac search_tags Hpre Hb :=
  rewrite !(index_skip _ _ _ _ Hpre); simpl index;
  rewrite ?(index_absent _ _ _ Hb); cbn [option_map].

Ltac colour_at pre k len :=
  rewrite (replace_framed pre _ _ k len); simpl substring; rewrite substring_all;
  reflexivity.

(** The line [toConsole] writes: the message, or the message with one
    occurrence of a tag wrapped in its colour code and the reset code, and
    then a line feed. *)
Lemma toConsole_line message s :
  exists text,
    std_cout (toConsole message s) = (std_cout s ++ text ++ nl)%string /\
    (text = message \/
     exists pre post tag colour,
       In (tag, colour) tag_colours /\
       message = (pre ++ tag ++ post)%string /\
       text = (pre ++ esc ++ colour ++ tag ++ esc ++ "[0m" ++ post)%string).
Proof.
  unfold toConsole. cbn [std_cout set_cout].
  destruct (find message "[MESSAGE]") as [pos|] eqn:H1;
    [ destruct (replace_found message "[MESSAGE]" "[32;1m" pos H1) as (pre & post & Hm & Hr)
    | destruct (find message "[DEBUG]") as [pos|] eqn:H2;
      [ destruct (replace_found message "[DEBUG]" "[36;1m" pos H2) as (pre & post & Hm & Hr)
      | destruct (find message "[WARNING]") as [pos|] eqn:H3;
        [ destruct (replace_found message "[WARNING]" "[33;1m" pos H3)
            as (pre & post & Hm & Hr)
        | destruct (find message "[ERROR]") as [pos|] eqn:H4;
          [ destruct (replace_found message "[ERROR]" "[31;1m" pos H4)
              as (pre & post & Hm & Hr)
          | exists message; split; [ reflexivity | left; reflexivity ] ] ] ] ];
    eexists; (split; [ reflexivity | ]); right; exists pre, post;
    [ exists "[MESSAGE]"%string, "[32;1m"%string
    | exists "[DEBUG]"%string, "[36;1m"%string
    | exists "[WARNING]"%string, "[33;1m"%string
    | exists "[ERROR]"%string, "[31;1m"%string ];
    (split; [ simpl; tauto | ]); (split; [ exact Hm | exact Hr ]).
Qed.

(** The line [toConsole] writes for a text made by [rec] whose time stamp
    and body contain no opening bracket: the tag carries the colour of the
    priority. *)
Lemma toConsole_tagged t p body s :
  has_char bracket t = false -> has_char bracket body = false ->
  std_cout (toConsole (t ++ " / " ++ rec_type p ++ " / " ++ body) s)
  = (std_cout s ++ (t ++ " / " ++ coloured_type p ++ " / " ++ body) ++ nl)%string.
Proof.
  intros Ht Hb.
  assert (Hpre : has_char bracket (t ++ " / ") = false)
    by (rewrite has_char_app, Ht; reflexivity).
  unfold toConsole, find. cbn [std_cout set_cout].
  rewrite <- !(append_assoc t " / ").
  destruct p; cbn [rec_type Priority_eqb Priority_val Z.eqb coloured_type];
    search_tags Hpre Hb;
    [ colour_at (t ++ " / ")%string 1%nat 7%nat
    | colour_at (t ++ " / ")%string 0%nat 9%nat
    | colour_at (t ++ " / ")%string 0%nat 9%nat
    | colour_at (t ++ " / ")%string 1%nat 7%nat
    | reflexivity ].
Qed.

(** ** The file sink *)

(** C8.  Started from a well-formed state every public call returns a state
    and a result.  When the file sink is enabled and the log file cannot be
    opened, [operator()] returns all the same: the file is left as it was, the
    history receives the entry, and the console step is performed: below the
    verbosity nothing is written, and at or above it one line is appended to
    [std::cout], the text of the entry (with one tag wrapped in its colour
    code) followed by a line feed; when the time stamp and the body hold no
    opening bracket that line is time stamp, tag in the colour of the
    priority, body.  Console, history and cursor are as after a call for which
    the file could be opened. *)
Theorem record_absorbs_file_failure fuel t p args s :
  wf s -> _logToFile s = true ->
  (forall env o, exists s' r, step (S fuel) env o s = Some (s', r)) /\
  exists s' s_ok,
    operator_call (S fuel) t false p args s = Some (s', tt) /\
    operator_call (S fuel) t true p args s = Some (s_ok, tt) /\
    log_file s' = log_file s /\
    log_file s_ok = (log_file s ++ rec_timedMsg t p args ++ nl)%string /\
    std_cout s' = std_cout s_ok /\
    std_cout s' = (if Priority_geb p (_verbosity s)
                   then std_cout (toConsole (rec_timedMsg t p args) s)
                   else std_cout s) /\
    _logs s' = _logs s_ok /\
    _logs s' = lastn (cap s) (_logs s ++ [(rec_timedMsg t p args, p)]) /\
    _logPointer s' = _logPointer s_ok /\
    (Priority_val p < Priority_val (_verbosity s) -> std_cout s' = std_cout s) /\
    (Priority_val (_verbosity s) <= Priority_val p ->
     (exists text,
        std_cout s' = (std_cout s ++ text ++ nl)%string /\
        (text = rec_timedMsg t p args \/
         exists pre post tag colour,
           In (tag, colour) tag_colours /\
           rec_timedMsg t p args = (pre ++ tag ++ post)%string /\
           text = (pre ++ esc ++ colour ++ tag ++ esc ++ "[0m" ++ post)%string)) /\
     (has_char bracket t = false ->
      has_char bracket (addToString EmptyString args) = false ->
      std_cout s'
      = (std_cout s
           ++ (t ++ " / " ++ coloured_type p ++ " / " ++ addToString EmptyString args)
           ++ nl)%string)).
Proof.
  intros Hwf Hfile. split.
  - intros env o.
    destruct (step_spec fuel env o s Hwf) as (s' & r & Hstep & _).
    exists s', r. exact Hstep.
  - exists (rec t false p args s), (rec t true p args s).
    split; [ apply operator_call_free; apply Hwf | ].
    split; [ apply operator_call_free; apply Hwf | ].
    destruct (rec_spec t false p args s Hwf) as (_ & _ & Hl & _ & Hc).
    destruct (rec_spec t true p args s Hwf) as (_ & _ & Hl' & _ & Hc').
    rewrite !rec_file, !rec_cout, Hfile, Hl, Hl', Hc, Hc'.
    do 7 (split; [ reflexivity | ]). split.
    + intros Hlt. apply Priority_geb_lt in Hlt. rewrite Hlt. reflexivity.
    + intros Hge. apply Priority_geb_le in Hge. rewrite Hge. split.
      * apply toConsole_line.
      * intros Ht Hb. rewrite rec_timedMsg_body. apply (toConsole_tagged _ _ _ _ Ht Hb).
Qed.

Lemma record_absorbs_file_failure_witness :
  exists s',
    operator_call 1 "T" false ERROR [ArgCStr "disk full"]
      (set_logToFile true (Log_new "shown before" "old")) = Some (s', tt) /\
    log_file s' = "old"%string /\
    _logs s' = [("T /  [ERROR]  / disk full"%string, ERROR)] /\
    std_cout s'
    = ("shown before" ++ "T /  " ++ esc ++ "[31;1m[ERROR]" ++ esc ++ "[0m  / disk full"
         ++ nl)%string.
Proof.
  destruct (record_absorbs_file_failure 0 "T" ERROR [ArgCStr "disk full"]
              (set_logToFile true (Log_new "shown before" "old"))
              (wf_Log_new "shown before" "old") eq_refl)
    as (_ & s' & s_ok & H1 & _ & H2 & _ & _ & _ & _ & H3 & _ & _ & H4).
  exists s'. split; [ exact H1 | ]. split; [ exact H2 | ]. split; [ exact H3 | ].
  apply (proj2 (H4 ltac:(simpl; lia)) eq_refl eq_refl).
Defined.

(** ** The lock *)


Lemma lock_guard_ext {A} fuel (b1 b2 : Log -> option (Log * A)) s :
  (forall s, b1 s = b2 s) -> lock_guard fuel b1 s = lock_guard fuel b2 s.
Proof.
  intros H. unfold lock_guard. destruct (Spinlock.lock fuel (_mutex s)); [ | reflexivity ].
  rewrite H. reflexivity.
Qed.

Lemma erase_lock_guard_events fuel body s :
  erase (lock_guard_events fuel (work body) s) = lock_guard fuel body s.
Proof.
  unfold lock_guard_events, lock_guard, work.
  destruct (Spinlock.lock fuel (_mutex s)) as [m|]; [ | reflexivity ].
  destruct (body (set_mutex m s)) as [[s' r]|]; reflexivity.
Qed.

(** Without the events a call is the call. *)
Lemma erase_step_events fuel env o s :
  erase (step_events fuel env o s) = step fuel env o s.
Proof.
  destruct o; unfold step_events, step;
    rewrite ?erase_lock_guard_events;
    [ unfold operator_call | unfold operator_shl | unfold operator_shl_Value
    | unfold operator_shl_Action | unfold operator_shl_Priority
    | | unfold getLogs | unfold getNewLogs | | | | unfold setLog ];
    rewrite ?ret_lock_guard; try reflexivity.
  - apply lock_guard_ext. intros s0. destruct action. reflexivity.
  - apply lock_guard_ext. intros s0. unfold body_of.
    destruct (getNewLogs_loop (S (List.length (_logs s0))) (_logPointer s0) (_logs s0) []);
      reflexivity.
Qed.

(** No body touches the lock. *)
Lemma body_of_mutex env o s s' r :
  body_of env o s = Some (s', r) -> _mutex s' = _mutex s.
Proof.
  destruct o; unfold body_of; intros E;
    try (injection E as <- _; reflexivity).
  - injection E as <- _. apply rec_mutex.
  - destruct action. injection E as <- _. cbn [_mutex set_tempPriority set_tempString].
    destruct (Priority_geb (_tempPriority s) (_verbosity s)); [ apply rec_mutex | reflexivity ].
  - destruct (getNewLogs_loop (S (List.length (_logs s))) (_logPointer s) (_logs s) []);
      [ injection E as <- _; reflexivity | discriminate E ].
  - injection E as <- _.
    change (_mutex (push_evict (log, priority) s) = _mutex s). apply push_evict_frame.
Qed.

Lemma lock_returns_held fuel l m :
  Spinlock.lock fuel l = Some m -> m = Spinlock.Build true.
Proof.
  destruct l as [[|]]; intros H.
  - rewrite lock_held in H by reflexivity. discriminate H.
  - destruct fuel; [ discriminate H | ]. simpl in H. injection H as <-. reflexivity.
Qed.



(** [getFullLogs] takes no lock either: it returns the history while the
    lock is held elsewhere. *)
Lemma getFullLogs_ignores_lock fuel env s :
  step fuel env OpGetFullLogs s = Some (s, RFull (_logs s)).
Proof. reflexivity. Qed.

(** ** Read-only retrieval *)

(** C10.  Called with the lock free, [getFullLogs] and [getLogs] return a
    copy of the history, respectively of the selected texts, and the state
    afterwards is the state before: history, cursor, verbosity, file-sink
    flag and streaming buffer are unchanged, and so is what a following
    [getNewLogs] returns. *)
Theorem retrieval_read_only fuel env priorities s :
  free s ->
  step (S fuel) env OpGetFullLogs s = Some (s, RFull (_logs s)) /\
  step (S fuel) env (OpGetLogs priorities) s
    = Some (s, RTexts (getLogs_loops (_logs s) priorities)) /\
  (forall o s' r,
     o = OpGetFullLogs \/ o = OpGetLogs priorities ->
     step (S fuel) env o s = Some (s', r) ->
     _logs s' = _logs s /\ _logPointer s' = _logPointer s /\
     _verbosity s' = _verbosity s /\ _logToFile s' = _logToFile s /\
     _tempString s' = _tempString s /\ _tempPriority s' = _tempPriority s /\
     getNewLogs (S fuel) s' = getNewLogs (S fuel) s).
Proof.
  intros Hfree.
  assert (H2 : step (S fuel) env (OpGetLogs priorities) s
               = Some (s, RTexts (getLogs_loops (_logs s) priorities))).
  { unfold step. rewrite (getLogs_free _ _ _ Hfree). reflexivity. }
  split; [ reflexivity | ]. split; [ exact H2 | ].
  intros o s' r [-> | ->] Hstep.
  - injection Hstep as <- _. repeat split; reflexivity.
  - rewrite H2 in Hstep. injection Hstep as <- _. repeat split; reflexivity.
Qed.

Lemma retrieval_read_only_witness :
  step 1 example_env OpGetFullLogs busy_log
  = Some (busy_log,
          RFull [("a"%string, ERROR); ("b"%string, WARNING); ("c"%string, MESSAGE)]) /\
  step 1 example_env (OpGetLogs [MESSAGE; ERROR]) busy_log
  = Some (busy_log, RTexts ["a"%string; "c"%string]) /\
  (exists s' r,
     step 1 example_env OpGetFullLogs busy_log = Some (s', r) /\
     _logPointer s' = 1 /\ _verbosity s' = WARNING /\ _logToFile s' = true /\
     _tempString s' = "half a line"%string /\ _tempPriority s' = ERROR /\
     getNewLogs 1 s'
     = Some (set_logPointer 3 busy_log, [("b"%string, WARNING); ("c"%string, MESSAGE)])) /\
  (exists s' r,
     step 1 example_env (OpGetLogs [MESSAGE; ERROR]) busy_log = Some (s', r) /\
     _logPointer s' = 1 /\ _verbosity s' = WARNING /\ _logToFile s' = true /\
     _tempString s' = "half a line"%string /\ _tempPriority s' = ERROR /\
     getNewLogs 1 s'
     = Some (set_logPointer 3 busy_log, [("b"%string, WARNING); ("c"%string, MESSAGE)])).
Proof.
  destruct (retrieval_read_only 0 example_env [MESSAGE; ERROR] busy_log eq_refl)
    as (H1 & H2 & H3).
  split; [ exact H1 | ]. split; [ exact H2 | ]. split.
  - destruct (H3 OpGetFullLogs _ _ (or_introl eq_refl) H1)
      as (_ & Hp & Hv & Hf & Ht & Hq & Hn).
    eexists; eexists. split; [ exact H1 | ].
    split; [ exact Hp | ]. split; [ exact Hv | ]. split; [ exact Hf | ].
    split; [ exact Ht | ]. split; [ exact Hq | exact Hn ].
  - destruct (H3 (OpGetLogs [MESSAGE; ERROR]) _ _ (or_intror eq_refl) H2)
      as (_ & Hp & Hv & Hf & Ht & Hq & Hn).
    eexists; eexists. split; [ exact H2 | ].
    split; [ exact Hp | ]. split; [ exact Hv | ]. split; [ exact Hf | ].
    split; [ exact Ht | ]. split; [ exact Hq | exact Hn ].
Defined.

(** * Further properties of the code *)

(** ** The spin lock on its own *)

(** X1.  [lock] returns only on a lock that was free, and leaves it held: a
    second [lock] then never returns, however long it spins, and [try_lock]
    reports failure and leaves the lock held. *)
Theorem spinlock_excludes fuel l l' :
  Spinlock.lock fuel l = Some l' ->
  Spinlock._lock l = false /\
  Spinlock._lock l' = true /\
  (forall fuel', Spinlock.lock fuel' l' = None) /\
  Spinlock.try_lock l' = (false, l').
Proof.
  intros H. destruct l as [b]. destruct b.
  - rewrite lock_held in H by reflexivity. discriminate H.
  - destruct fuel as [|fuel]; [ discriminate H | ].
    simpl in H. injection H as <-.
    split; [ reflexivity | ]. split; [ reflexivity | ].
    split; [ intros fuel'; apply lock_held; reflexivity | reflexivity ].
Qed.

Lemma spinlock_excludes_witness :
  Spinlock.lock 2 (Spinlock.Build true) = None /\
  Spinlock.try_lock (Spinlock.Build true) = (false, Spinlock.Build true).
Proof.
  destruct (spinlock_excludes 1 Spinlock.init (Spinlock.Build true) eq_refl)
    as (_ & _ & H & H').
  split; [ apply H | exact H' ].
Defined.

(** X2.  Whatever the state of the lock, after [unlock] the next [lock]
    returns at its first test and the next [try_lock] succeeds, both leaving
    the lock held; of two [try_lock] in a row the first succeeds exactly when
    the lock was free and the second always fails. *)
Theorem spinlock_release l fuel :
  Spinlock.lock (S fuel) (Spinlock.unlock l) = Some (Spinlock.Build true) /\
  Spinlock.try_lock (Spinlock.unlock l) = (true, Spinlock.Build true) /\
  fst (Spinlock.try_lock l) = negb (Spinlock._lock l) /\
  fst (Spinlock.try_lock (snd (Spinlock.try_lock l))) = false /\
  (forall l1, Spinlock.lock (S fuel) l = Some l1 ->
     Spinlock.lock (S fuel) (Spinlock.unlock l1) = Some l1).
Proof.
  destruct l as [b]. repeat split; try reflexivity.
  intros l1 H. destruct b.
  - rewrite lock_held in H by reflexivity. discriminate H.
  - simpl in H. injection H as <-. reflexivity.
Qed.

(** ** Injected entries *)

(** X3.  [setLog] stores the text and the priority as given, with no time
    stamp and no tag, as the newest entry (when the capacity is positive), and
    writes neither to the console nor to the log file; the verbosity, the
    file-sink flag and the streaming buffer stay as they were. *)
Theorem setLog_verbatim fuel log priority s :
  wf s -> 0 < _logLength s ->
  exists s',
    setLog (S fuel) log priority s = Some (s', tt) /\
    last (_logs s') (EmptyString, NONE) = (log, priority) /\
    std_cout s' = std_cout s /\
    log_file s' = log_file s /\
    _verbosity s' = _verbosity s /\
    _logToFile s' = _logToFile s /\
    _tempString s' = _tempString s /\
    _tempPriority s' = _tempPriority s.
Proof.
  intros Hwf Hpos. exists (push_evict (log, priority) s).
  split; [ apply setLog_free; apply Hwf | ].
  destruct (push_evict_spec (log, priority) s Hwf) as (_ & _ & Hl & _).
  destruct (push_evict_frame (log, priority) s) as (_ & H1 & _ & H2 & H3 & H4 & H5 & H6).
  split; [ | repeat split; assumption ].
  rewrite Hl, lastn_snoc_pos by (unfold cap; lia). apply last_last.
Qed.

Lemma setLog_verbatim_witness :
  exists s',
    setLog 1 "from another process" WARNING
      (set_logToFile true (Log_new "shown" "filed")) = Some (s', tt) /\
    last (_logs s') (EmptyString, NONE) = ("from another process"%string, WARNING) /\
    std_cout s' = "shown"%string /\
    log_file s' = "filed"%string.
Proof.
  destruct (setLog_verbatim 0 "from another process" WARNING
              (set_logToFile true (Log_new "shown" "filed"))
              (wf_Log_new "shown" "filed") eq_refl)
    as (s' & H1 & H2 & H3 & H4 & _).
  exists s'. repeat split; assumption.
Defined.

(** ** More on retrieval by priority *)

(** X4.  The order in which the priorities are nominated does not matter to
    [getLogs]: two argument lists that are permutations of each other give the
    same result. *)
Theorem getLogs_any_order fuel ps qs s :
  free s -> Permutation ps qs ->
  getLogs (S fuel) ps s = getLogs (S fuel) qs s.
Proof.
  intros Hfree Hperm.
  rewrite !(getLogs_free _ _ _ Hfree), !getLogs_loops_spec.
  f_equal. f_equal. apply flat_map_ext. intros log. unfold times.
  rewrite (proj1 (Permutation_count_occ Priority_eq_dec ps qs) Hperm (snd log)).
  reflexivity.
Qed.

Lemma getLogs_any_order_witness :
  getLogs 1 [WARNING; ERROR]
    (set_logs [("a"%string, ERROR); ("b"%string, WARNING); ("c"%string, MESSAGE);
               ("d"%string, ERROR)] (Log_new EmptyString EmptyString))
  = getLogs 1 [ERROR; WARNING]
      (set_logs [("a"%string, ERROR); ("b"%string, WARNING); ("c"%string, MESSAGE);
                 ("d"%string, ERROR)] (Log_new EmptyString EmptyString)) /\
  getLogs 1 [ERROR; WARNING]
    (set_logs [("a"%string, ERROR); ("b"%string, WARNING); ("c"%string, MESSAGE);
               ("d"%string, ERROR)] (Log_new EmptyString EmptyString))
  = Some (set_logs [("a"%string, ERROR); ("b"%string, WARNING); ("c"%string, MESSAGE);
                    ("d"%string, ERROR)] (Log_new EmptyString EmptyString),
          ["a"%string; "b"%string; "d"%string]).
Proof.
  split; [ | reflexivity ].
  apply (getLogs_any_order 0 [WARNING; ERROR] [ERROR; WARNING]
           (set_logs [("a"%string, ERROR); ("b"%string, WARNING); ("c"%string, MESSAGE);
                      ("d"%string, ERROR)] (Log_new EmptyString EmptyString)) eq_refl).
  apply perm_swap.
Defined.

Lemma flat_map_repeat_length (f g : entry -> nat) : forall l : list entry,
  List.length (flat_map (fun log => repeat (fst log) (f log + g log)) l)
  = (List.length (flat_map (fun log => repeat (fst log) (f log)) l)
     + List.length (flat_map (fun log => repeat (fst log) (g log)) l))%nat.
Proof.
  induction l as [|log l IH]; simpl; [ reflexivity | ].
  rewrite !length_app, !repeat_length, IH. lia.
Qed.

(** X5.  With the lock free, [getLogs] with no priority returns nothing,
    [getLogs] with each of the five priorities once returns the text of every
    entry of the history in order, and nominating two lists of priorities
    together returns as many texts as nominating them one after the other. *)
Theorem getLogs_partition fuel ps qs s :
  free s ->
  getLogs (S fuel) [] s = Some (s, []) /\
  getLogs (S fuel) all_priorities s = Some (s, map fst (_logs s)) /\
  exists a b c,
    getLogs (S fuel) ps s = Some (s, a) /\
    getLogs (S fuel) qs s = Some (s, b) /\
    getLogs (S fuel) (ps ++ qs) s = Some (s, c) /\
    List.length c = (List.length a + List.length b)%nat.
Proof.
  intros Hfree. rewrite !(getLogs_free _ _ _ Hfree), !getLogs_loops_spec.
  split; [ | split ].
  - f_equal. f_equal. induction (_logs s) as [|log l IH]; [ reflexivity | exact IH ].
  - f_equal. f_equal. induction (_logs s) as [|[text p] l IH]; simpl; [ reflexivity | ].
    rewrite IH. destruct p; reflexivity.
  - eexists; eexists; eexists. repeat split.
    rewrite <- flat_map_repeat_length. f_equal. apply flat_map_ext.
    intros log. unfold times. rewrite count_occ_app. reflexivity.
Qed.

Lemma getLogs_partition_witness :
  getLogs 1 all_priorities
    (set_logs [("a"%string, WARNING); ("b"%string, NONE)] (Log_new EmptyString EmptyString))
  = Some (set_logs [("a"%string, WARNING); ("b"%string, NONE)]
            (Log_new EmptyString EmptyString),
          ["a"%string; "b"%string]).
Proof.
  apply (getLogs_partition 0 [] []
           (set_logs [("a"%string, WARNING); ("b"%string, NONE)]
              (Log_new EmptyString EmptyString)) eq_refl).
Defined.

(** ** Polling and the capacity *)

Lemma length_lastn {A} n (l : list A) :
  List.length (lastn n l) = Nat.min n (List.length l).
Proof. unfold lastn. rewrite length_skipn. lia. Qed.

(** X6.  After calls other than [getNewLogs], [getNewLogs] returns
    capacity-many entries at most; as long as the entries pending before and
    the ones appended since are together no more than the capacity, it returns
    all of them, in order: polling at least once every capacity-many
    insertions loses nothing. *)
Theorem poll_within_capacity fuel calls s :
  wf s -> no_poll calls = true ->
  exists s1 rs s2 out,
    run (S fuel) calls s = Some (s1, rs) /\
    getNewLogs (S fuel) s1 = Some (s2, out) /\
    List.length out
    = Nat.min (cap s)
        (List.length (undelivered s) + List.length (appended_run (S fuel) calls s)) /\
    ((List.length (undelivered s) + List.length (appended_run (S fuel) calls s)
      <= cap s)%nat ->
     out = (undelivered s ++ appended_run (S fuel) calls s)%list).
Proof.
  intros Hwf Hnp.
  destruct (run_spec fuel calls s Hwf) as (s1 & rs & Hrun & Hwf1 & _ & _ & Hu).
  exists s1, rs, (set_logPointer (size (_logs s1)) s1), (undelivered s1).
  split; [ exact Hrun | ]. split; [ apply (getNewLogs_free _ _ Hwf1) | ].
  rewrite (Hu Hnp). split.
  - rewrite length_lastn, length_app. reflexivity.
  - intros Hle. apply lastn_all. rewrite length_app. exact Hle.
Qed.

Lemma poll_within_capacity_witness :
  exists s1 rs s2 out,
    run 1 [(example_env, OpSetLog "A" DEBUGGING); (example_env, OpShlPriority ERROR);
           (example_env, OpRecord ERROR [ArgCStr "B"])] example_log = Some (s1, rs) /\
    getNewLogs 1 s1 = Some (s2, out) /\
    out = [("A"%string, DEBUGGING); ("2016-01-01T00:00:00 /  [ERROR]  / B"%string, ERROR)].
Proof.
  destruct (poll_within_capacity 0
              [(example_env, OpSetLog "A" DEBUGGING); (example_env, OpShlPriority ERROR);
               (example_env, OpRecord ERROR [ArgCStr "B"])] example_log
              (wf_set_logLength 3 _ (wf_Log_new EmptyString EmptyString)
                 ltac:(unfold INT_MAX, size; simpl; lia))
              eq_refl)
    as (s1 & rs & s2 & out & H1 & H2 & _ & H3).
  exists s1, rs, s2, out. split; [ exact H1 | ]. split; [ exact H2 | ].
  rewrite (H3 ltac:(vm_compute; lia)). reflexivity.
Defined.

(** ** The verbosity *)

(** X7.  [getVerbosity] returns what [setVerbosity] has set.  With the
    verbosity set to [DEBUGGING], [operator()] writes every message to the
    console: one line is appended to [std::cout], the text of the entry (with
    one tag wrapped in its colour code) followed by a line feed, and when the
    time stamp and the body hold no opening bracket that line is time stamp,
    tag in the colour of the priority, body.  With the verbosity set to [NONE]
    it writes the messages of priority [NONE] in the same way and no others.
    The entry goes to the history either way. *)
Theorem verbosity_extremes fuel t g p args s :
  wf s ->
  snd (getVerbosity (fst (setVerbosity p s))) = p /\
  exists s_all s_none,
    operator_call (S fuel) t g p args (fst (setVerbosity DEBUGGING s)) = Some (s_all, tt) /\
    operator_call (S fuel) t g p args (fst (setVerbosity NONE s)) = Some (s_none, tt) /\
    std_cout s_all = std_cout (toConsole (rec_timedMsg t p args) s) /\
    (p <> NONE -> std_cout s_none = std_cout s) /\
    (p = NONE -> std_cout s_none = std_cout (toConsole (rec_timedMsg t p args) s)) /\
    _logs s_all = _logs s_none /\
    _logs s_all = lastn (cap s) (_logs s ++ [(rec_timedMsg t p args, p)]) /\
    (exists text,
       std_cout s_all = (std_cout s ++ text ++ nl)%string /\
       (p = NONE -> std_cout s_none = (std_cout s ++ text ++ nl)%string) /\
       (text = rec_timedMsg t p args \/
        exists pre post tag colour,
          In (tag, colour) tag_colours /\
          rec_timedMsg t p args = (pre ++ tag ++ post)%string /\
          text = (pre ++ esc ++ colour ++ tag ++ esc ++ "[0m" ++ post)%string)) /\
    (has_char bracket t = false ->
     has_char bracket (addToString EmptyString args) = false ->
     std_cout s_all
     = (std_cout s
          ++ (t ++ " / " ++ coloured_type p ++ " / " ++ addToString EmptyString args)
          ++ nl)%string).
Proof.
  intros Hwf. split; [ reflexivity | ].
  assert (Hwf1 : wf (set_verbosity DEBUGGING s)) by (revert Hwf; apply wf_ext; reflexivity).
  assert (Hwf2 : wf (set_verbosity NONE s)) by (revert Hwf; apply wf_ext; reflexivity).
  exists (rec t g p args (set_verbosity DEBUGGING s)), (rec t g p args (set_verbosity NONE s)).
  split; [ apply operator_call_free; apply Hwf1 | ].
  split; [ apply operator_call_free; apply Hwf2 | ].
  destruct (rec_spec t g p args _ Hwf1) as (_ & _ & Hl1 & _).
  destruct (rec_spec t g p args _ Hwf2) as (_ & _ & Hl2 & _).
  assert (Hall : std_cout (rec t g p args (set_verbosity DEBUGGING s))
                 = std_cout (toConsole (rec_timedMsg t p args) s))
    by (rewrite rec_cout; destruct p; reflexivity).
  assert (Hnone : p = NONE ->
                  std_cout (rec t g p args (set_verbosity NONE s))
                  = std_cout (toConsole (rec_timedMsg t p args) s))
    by (intros ->; rewrite rec_cout; reflexivity).
  split; [ exact Hall | ].
  split; [ intros Hp; rewrite rec_cout; destruct p; try reflexivity;
           contradiction Hp; reflexivity | ].
  split; [ exact Hnone | ].
  split; [ rewrite Hl1, Hl2; reflexivity | ].
  split; [ rewrite Hl1; reflexivity | ].
  split.
  - destruct (toConsole_line (rec_timedMsg t p args) s) as (text & Hline & Hshape).
    exists text. rewrite Hall. split; [ exact Hline | ].
    split; [ intros Hp; rewrite (Hnone Hp); exact Hline | exact Hshape ].
  - intros Ht Hb. rewrite Hall, rec_timedMsg_body. apply (toConsole_tagged _ _ _ _ Ht Hb).
Qed.

Lemma verbosity_extremes_witness :
  (exists s_all,
     operator_call 1 "T" true DEBUGGING [ArgCStr "x"]
       (fst (setVerbosity DEBUGGING (Log_new "before" EmptyString))) = Some (s_all, tt) /\
     std_cout s_all
     = ("before" ++ "T /  " ++ esc ++ "[36;1m[DEBUG]" ++ esc ++ "[0m  / x" ++ nl)%string) /\
  (exists s_none,
     operator_call 1 "T" true ERROR [ArgCStr "x"]
       (fst (setVerbosity NONE (Log_new "before" EmptyString))) = Some (s_none, tt) /\
     std_cout s_none = "before"%string /\
     _logs s_none = [("T /  [ERROR]  / x"%string, ERROR)]).
Proof.
  split.
  - destruct (verbosity_extremes 0 "T" true DEBUGGING [ArgCStr "x"]
                (Log_new "before" EmptyString) (wf_Log_new "before" EmptyString))
      as (_ & s_all & s_none & H1 & _ & _ & _ & _ & _ & _ & _ & H2).
    exists s_all. split; [ exact H1 | exact (H2 eq_refl eq_refl) ].
  - destruct (verbosity_extremes 0 "T" true ERROR [ArgCStr "x"]
                (Log_new "before" EmptyString) (wf_Log_new "before" EmptyString))
      as (_ & s_all & s_none & _ & H1 & _ & H2 & _ & H3 & H4 & _).
    exists s_none. split; [ exact H1 | ]. split.
    + apply H2. discriminate.
    + rewrite <- H3. exact H4.
Defined.

(** ** The log file *)

Lemma rec_logToFile t g p args s : _logToFile (rec t g p args s) = _logToFile s.
Proof.
  rewrite rec_push_evict.
  destruct (push_evict_frame (rec_timedMsg t p args, p) (rec_sinks t g p args s))
    as (_ & -> & _).
  apply rec_sinks_frame.
Qed.

Lemma lines_app : forall a b, lines (a ++ b) = (lines a ++ lines b)%string.
Proof.
  induction a as [|e a IH]; intros b; simpl; [ reflexivity | ].
  rewrite IH, !append_assoc. reflexivity.
Qed.

(** What one call does to the log file and to the file-sink flag. *)
Lemma step_file fuel env o s s' r :
  wf s -> step (S fuel) env o s = Some (s', r) ->
  _logToFile s' = match o with OpLogToFile b => b | _ => _logToFile s end /\
  log_file s' =
    if _logToFile s && good env && negb (is_inject o)
    then (log_file s ++ lines (appended env o s))%string
    else log_file s.
Proof.
  intros Hwf. pose proof Hwf as (Hfree & _).
  assert (Hsame : forall b : bool,
            log_file s = if b then (log_file s ++ lines [])%string else log_file s)
    by (intros [|]; simpl; [ symmetry; apply append_empty_r | reflexivity ]).
  destruct o as [p args|msg|v|a|p| |ps| | |b|p|log p]; unfold step.
  - rewrite (operator_call_free _ _ _ _ _ _ Hfree). intros E. injection E as <- _.
    rewrite rec_logToFile, rec_file. split; [ reflexivity | ].
    destruct (_logToFile s), (good env); reflexivity.
  - rewrite (operator_shl_free _ _ _ Hfree). intros E. injection E as <- _.
    split; [ reflexivity | apply Hsame ].
  - rewrite (operator_shl_Value_free _ _ _ Hfree). intros E. injection E as <- _.
    split; [ reflexivity | apply Hsame ].
  - rewrite (operator_shl_Action_free _ _ _ _ _ Hfree). intros E. injection E as <- _.
    destruct a. unfold flushed, appended. cbn [_logToFile log_file set_tempPriority set_tempString].
    destruct (Priority_geb (_tempPriority s) (_verbosity s)).
    + rewrite rec_logToFile, rec_file. split; [ reflexivity | ].
      destruct (_logToFile s), (good env); reflexivity.
    + split; [ reflexivity | apply Hsame ].
  - rewrite (operator_shl_Priority_free _ _ _ Hfree). intros E. injection E as <- _.
    split; [ reflexivity | apply Hsame ].
  - intros E. injection E as <- _. split; [ reflexivity | apply Hsame ].
  - rewrite (getLogs_free _ _ _ Hfree). intros E. injection E as <- _.
    split; [ reflexivity | apply Hsame ].
  - rewrite (getNewLogs_free _ _ Hwf). intros E. injection E as <- _.
    split; [ reflexivity | apply Hsame ].
  - intros E. injection E as <- _. split; [ reflexivity | apply Hsame ].
  - intros E. injection E as <- _. split; [ reflexivity | apply Hsame ].
  - intros E. injection E as <- _. split; [ reflexivity | apply Hsame ].
  - rewrite (setLog_free _ _ _ _ Hfree). intros E. injection E as <- _.
    destruct (push_evict_frame (log, p) s) as (_ & H1 & _ & _ & _ & _ & _ & H2).
    rewrite H1, H2. cbn [is_inject negb]. rewrite andb_false_r. split; reflexivity.
Qed.

(** X8.  With the file sink enabled and the log file opening every time, a
    sequence of calls that are neither [setLog] nor [logToFile] appends to the
    file, in order, one line for each entry it hands to the history: the
    plain text, whatever the verbosity.  Started with an empty history and an
    empty file, and as long as the capacity is not exceeded, the file reads
    line by line as the history does. *)
Theorem file_mirrors_history fuel : forall calls s,
  wf s -> _logToFile s = true -> forallb sink_call calls = true ->
  exists s' rs,
    run (S fuel) calls s = Some (s', rs) /\
    log_file s' = (log_file s ++ lines (appended_run (S fuel) calls s))%string /\
    (_logs s = [] -> log_file s = EmptyString ->
     (List.length (appended_run (S fuel) calls s) <= cap s)%nat ->
     log_file s' = lines (_logs s')).
Proof.
  assert (Hfile : forall calls s,
    wf s -> _logToFile s = true -> forallb sink_call calls = true ->
    exists s' rs,
      run (S fuel) calls s = Some (s', rs) /\
      log_file s' = (log_file s ++ lines (appended_run (S fuel) calls s))%string /\
      _logs s' = lastn (cap s) (_logs s ++ appended_run (S fuel) calls s)).
  { induction calls as [|[env o] calls IH]; intros s Hwf Hon Hall.
    - exists s, []. split; [ reflexivity | ].
      split; [ symmetry; apply append_empty_r | apply lastn_nothing_new; apply Hwf ].
    - simpl in Hall. apply andb_prop in Hall as [Hcall Hall].
      unfold sink_call in Hcall. cbn [fst snd] in Hcall.
      apply andb_prop in Hcall as [Hgood Hop].
      destruct (step_spec fuel env o s Hwf) as (s1 & r & Hstep & Hwf1 & Hn1 & Hl1 & _).
      destruct (step_file fuel env o s s1 r Hwf Hstep) as [Hon1 Hf1].
      assert (Hinj : is_inject o = false) by (destruct o; try reflexivity; discriminate Hop).
      assert (Hon1' : _logToFile s1 = true)
        by (rewrite Hon1; destruct o; try exact Hon; discriminate Hop).
      rewrite Hon, Hgood, Hinj in Hf1. cbn [andb negb] in Hf1.
      destruct (IH s1 Hwf1 Hon1' Hall) as (s' & rs & Hrun & Hf & Hl).
      exists s', (r :: rs). simpl run. simpl appended_run. rewrite Hstep, Hrun.
      split; [ reflexivity | ]. split.
      + rewrite Hf, Hf1, lines_app, append_assoc. reflexivity.
      + assert (Hcap : cap s1 = cap s) by (unfold cap; rewrite Hn1; reflexivity).
        rewrite Hl, Hl1, Hcap, lastn_app_lastn, app_assoc. reflexivity. }
  intros calls s Hwf Hon Hall.
  destruct (Hfile calls s Hwf Hon Hall) as (s' & rs & Hrun & Hf & Hl).
  exists s', rs. split; [ exact Hrun | ]. split; [ exact Hf | ].
  intros Hempty Hnofile Hle. rewrite Hf, Hl, Hempty, Hnofile. simpl.
  rewrite lastn_all by exact Hle. reflexivity.
Qed.

Lemma file_mirrors_history_witness :
  exists s' rs,
    run 1 [(example_env, OpRecord DEBUGGING [ArgCStr "quiet"]);
           (example_env, OpShl (ArgCStr "loud")); (example_env, OpShlAction endl)]
      (set_logToFile true (Log_new EmptyString EmptyString)) = Some (s', rs) /\
    log_file s' = lines (_logs s') /\
    log_file s'
    = ("2016-01-01T00:00:00 /  [DEBUG]  / quiet" ++ nl
         ++ "2016-01-01T00:00:00 / [MESSAGE] / loud" ++ nl)%string.
Proof.
  destruct (file_mirrors_history 0
              [(example_env, OpRecord DEBUGGING [ArgCStr "quiet"]);
               (example_env, OpShl (ArgCStr "loud")); (example_env, OpShlAction endl)]
              (set_logToFile true (Log_new EmptyString EmptyString))
              (wf_Log_new EmptyString EmptyString) eq_refl eq_refl)
    as (s' & rs & H1 & H2 & H3).
  exists s', rs. split; [ exact H1 | ].
  split; [ apply H3; [ reflexivity | reflexivity | vm_compute; lia ] | exact H2 ].
Defined.

(** X9.  While the file sink is disabled the log file is never written:
    whatever the calls, as long as none is [logToFile(true)], the file is
    afterwards as it was and the sink still disabled. *)
Theorem file_untouched_when_disabled fuel : forall calls s,
  wf s -> _logToFile s = false -> forallb keeps_sink_off calls = true ->
  exists s' rs,
    run (S fuel) calls s = Some (s', rs) /\
    log_file s' = log_file s /\
    _logToFile s' = false.
Proof.
  induction calls as [|[env o] calls IH]; intros s Hwf Hoff Hall.
  - exists s, []. repeat split. exact Hoff.
  - simpl in Hall. apply andb_prop in Hall as [Hcall Hall].
    unfold keeps_sink_off in Hcall. cbn [snd] in Hcall.
    destruct (step_spec fuel env o s Hwf) as (s1 & r & Hstep & Hwf1 & _).
    destruct (step_file fuel env o s s1 r Hwf Hstep) as [Hon1 Hf1].
    rewrite Hoff in Hf1. cbn [andb] in Hf1.
    assert (Hoff1 : _logToFile s1 = false).
    { rewrite Hon1. destruct o; try exact Hoff.
      destruct activate; [ discriminate Hcall | reflexivity ]. }
    destruct (IH s1 Hwf1 Hoff1 Hall) as (s' & rs & Hrun & Hf & Hoff').
    exists s', (r :: rs). simpl run. rewrite Hstep, Hrun.
    split; [ reflexivity | ]. split; [ rewrite Hf; exact Hf1 | exact Hoff' ].
Qed.

Lemma file_untouched_when_disabled_witness :
  exists s' rs,
    run 1 [(mkEnv "T" true, OpRecord ERROR [ArgCStr "x"]); (mkEnv "T" true, OpLogToFile false);
           (mkEnv "T" true, OpShlAction endl)] (Log_new EmptyString "kept") = Some (s', rs) /\
    log_file s' = "kept"%string /\
    _logToFile s' = false.
Proof.
  apply (file_untouched_when_disabled 0
           [(mkEnv "T" true, OpRecord ERROR [ArgCStr "x"]); (mkEnv "T" true, OpLogToFile false);
            (mkEnv "T" true, OpShlAction endl)] (Log_new EmptyString "kept")
           (wf_Log_new EmptyString "kept") eq_refl eq_refl).
Defined.

(** ** Streaming against the one-shot call *)

Lemma run_app fuel : forall a b s,
  run fuel (a ++ b) s =
  match run fuel a s with
  | None => None
  | Some (s1, r1) =>
      match run fuel b s1 with
      | None => None
      | Some (s2, r2) => Some (s2, (r1 ++ r2)%list)
      end
  end.
Proof.
  induction a as [|[env o] a IH]; intros b s; simpl.
  - destruct (run fuel b s) as [[s2 r2]|]; reflexivity.
  - destruct (step fuel env o s) as [[s1 r]|]; [ | reflexivity ].
    rewrite IH. destruct (run fuel a s1) as [[s2 r1]|]; [ | reflexivity ].
    destruct (run fuel b s2) as [[s3 r2]|]; reflexivity.
Qed.

(** Streaming pieces one after the other accumulates their string forms. *)
Lemma run_accumulate fuel e : forall args s,
  free s ->
  exists rs,
    run (S fuel) (map (fun a => (e, OpShl a)) args) s
    = Some (set_tempString (addToString (_tempString s) args) s, rs).
Proof.
  induction args as [|a args IH]; intros s Hfree.
  - exists []. destruct s. reflexivity.
  - simpl map. simpl run. rewrite (operator_shl_free _ _ _ Hfree). cbn [ret].
    destruct (IH (set_tempString (addToString (_tempString s) [a]) s) Hfree) as [rs ->].
    exists (RVoid :: rs). destruct a; reflexivity.
Qed.

Lemma push_evict_set_temp e x q s :
  push_evict e (set_tempString x (set_tempPriority q s))
  = set_tempString x (set_tempPriority q (push_evict e s)).
Proof.
  unfold push_evict. simpl.
  destruct (size (push_back e (_logs s)) >? size_t_of (_logLength s)); reflexivity.
Qed.

Lemma rec_sinks_set_temp t g p args x q s :
  rec_sinks t g p args (set_tempString x (set_tempPriority q s))
  = set_tempString x (set_tempPriority q (rec_sinks t g p args s)).
Proof.
  unfold rec_sinks. simpl.
  destruct (_logToFile s); [ destruct g | ]; simpl;
    match goal with |- context [Priority_geb ?a ?b] => destruct (Priority_geb a b) end;
    reflexivity.
Qed.

(** [rec] neither reads nor writes the streaming buffer and its priority. *)
Lemma rec_set_temp t g p args x q s :
  rec t g p args (set_tempString x (set_tempPriority q s))
  = set_tempString x (set_tempPriority q (rec t g p args s)).
Proof.
  rewrite !rec_push_evict, rec_sinks_set_temp, push_evict_set_temp. reflexivity.
Qed.

Lemma rec_same_text t g p args args' s :
  rec_timedMsg t p args = rec_timedMsg t p args' ->
  rec t g p args s = rec t g p args' s.
Proof. intros H. unfold rec. rewrite H. reflexivity. Qed.

(** X10.  Streaming a priority and the pieces of a message into an empty
    buffer and ending with [Log::endl] does what the one-shot [operator()]
    does with the same priority and pieces at the same time, when the priority
    is at least the verbosity: the same history, cursor, console and file, and
    the buffer empty again.  When the priority is below the verbosity the
    one-shot call still appends the entry while the streamed message leaves no
    trace. *)
Theorem stream_matches_record fuel e t g p args s :
  wf s -> _tempString s = EmptyString ->
  exists s' rs s_rec,
    run (S fuel) (stream_calls e t g p args) s = Some (s', rs) /\
    operator_call (S fuel) t g p args s = Some (s_rec, tt) /\
    _logs s_rec = lastn (cap s) (_logs s ++ [(rec_timedMsg t p args, p)]) /\
    (Priority_val (_verbosity s) <= Priority_val p ->
     s' = set_tempPriority MESSAGE (set_tempString EmptyString s_rec)) /\
    (Priority_val p < Priority_val (_verbosity s) ->
     s' = set_tempPriority MESSAGE (set_tempString EmptyString s)).
Proof.
  intros Hwf Hempty. pose proof Hwf as (Hfree & _).
  set (s1 := set_tempPriority p s).
  assert (Hfree1 : free s1) by exact Hfree.
  destruct (run_accumulate fuel e args s1 Hfree1) as [rs Hacc].
  set (s2 := set_tempString (addToString (_tempString s1) args) s1) in Hacc.
  assert (Hfree2 : free s2) by exact Hfree.
  exists (flushed t g s2), (RVoid :: rs ++ [RVoid])%list, (rec t g p args s).
  split; [ | split; [ apply (operator_call_free _ _ _ _ _ _ Hfree) | split ] ].
  - unfold stream_calls. cbn [run app]. unfold step at 1.
    rewrite (operator_shl_Priority_free _ _ _ Hfree). cbn [ret]. fold s1.
    rewrite run_app, Hacc. cbn [run]. unfold step.
    rewrite (operator_shl_Action_free _ _ _ _ _ Hfree2). reflexivity.
  - apply (rec_spec t g p args s Hwf).
  - assert (Htext : rec_timedMsg t p [ArgString (_tempString s2)] = rec_timedMsg t p args).
    { unfold s2, s1. cbn [_tempString set_tempString set_tempPriority].
      rewrite Hempty. unfold rec_timedMsg.
      change (addToString (t ++ " / " ++ rec_type p ++ " / ")
                [ArgString (addToString EmptyString args)])
        with ((t ++ " / " ++ rec_type p ++ " / ") ++ addToString EmptyString args)%string.
      symmetry. apply addToString_app. }
    split.
    + intros Hge. apply Priority_geb_le in Hge. unfold flushed.
      change (_tempPriority s2) with p. change (_verbosity s2) with (_verbosity s).
      rewrite Hge, (rec_same_text _ _ _ _ _ _ Htext).
      unfold s2, s1. rewrite rec_set_temp. reflexivity.
    + intros Hlt. apply Priority_geb_lt in Hlt. unfold flushed.
      change (_tempPriority s2) with p. change (_verbosity s2) with (_verbosity s).
      rewrite Hlt. reflexivity.
Qed.

Lemma stream_matches_record_witness :
  exists s' rs s_rec,
    run 1 (stream_calls example_env "T" true WARNING [ArgCStr "lost "; ArgNum 3; ArgCStr " frames"])
      (Log_new EmptyString EmptyString) = Some (s', rs) /\
    operator_call 1 "T" true WARNING [ArgCStr "lost "; ArgNum 3; ArgCStr " frames"]
      (Log_new EmptyString EmptyString) = Some (s_rec, tt) /\
    s' = s_rec.
Proof.
  destruct (stream_matches_record 0 example_env "T" true WARNING
              [ArgCStr "lost "; ArgNum 3; ArgCStr " frames"]
              (Log_new EmptyString EmptyString)
              (wf_Log_new EmptyString EmptyString) eq_refl)
    as (s' & rs & s_rec & H1 & H2 & _ & H3 & _).
  exists s', rs, s_rec. split; [ exact H1 | ]. split; [ exact H2 | ].
  rewrite (H3 ltac:(vm_compute; discriminate)).
  rewrite operator_call_free in H2 by reflexivity.
  injection H2 as <-. vm_compute. reflexivity.
Defined.

(** ** The console line *)

(** X11.  The line [toConsole] writes is the message itself followed by a
    line feed, except for colours: either one occurrence of one of the four
    tags is wrapped in its colour code and the reset code, and the text before
    and after it is unchanged, or the message contains none of the tags and is
    written as it is.  Nothing but [std::cout] is touched. *)
Theorem toConsole_keeps_text message s :
  ((exists pre post tag colour,
      In (tag, colour) tag_colours /\
      message = (pre ++ tag ++ post)%string /\
      std_cout (toConsole message s)
      = (std_cout s ++ (pre ++ esc ++ colour ++ tag ++ esc ++ "[0m" ++ post) ++ nl)%string)
   \/
   ((forall tag colour pre post,
       In (tag, colour) tag_colours -> message <> (pre ++ tag ++ post)%string) /\
    std_cout (toConsole message s) = (std_cout s ++ message ++ nl)%string)) /\
  toConsole message s = set_cout (std_cout (toConsole message s)) s.
Proof.
  split; [ | reflexivity ].
  unfold toConsole. cbn [std_cout set_cout].
  destruct (find message "[MESSAGE]") as [pos|] eqn:H1.
  { left. destruct (replace_found message "[MESSAGE]" "[32;1m" pos H1) as (pre & post & Hm & Hr).
    exists pre, post, "[MESSAGE]"%string, "[32;1m"%string.
    split; [ simpl; tauto | ]. split; [ exact Hm | ].
    change 9%nat with (String.length "[MESSAGE]"). rewrite <- Hr. reflexivity. }
  destruct (find message "[DEBUG]") as [pos|] eqn:H2.
  { left. destruct (replace_found message "[DEBUG]" "[36;1m" pos H2) as (pre & post & Hm & Hr).
    exists pre, post, "[DEBUG]"%string, "[36;1m"%string.
    split; [ simpl; tauto | ]. split; [ exact Hm | ].
    change 7%nat with (String.length "[DEBUG]"). rewrite <- Hr. reflexivity. }
  destruct (find message "[WARNING]") as [pos|] eqn:H3.
  { left. destruct (replace_found message "[WARNING]" "[33;1m" pos H3) as (pre & post & Hm & Hr).
    exists pre, post, "[WARNING]"%string, "[33;1m"%string.
    split; [ simpl; tauto | ]. split; [ exact Hm | ].
    change 9%nat with (String.length "[WARNING]"). rewrite <- Hr. reflexivity. }
  destruct (find message "[ERROR]") as [pos|] eqn:H4.
  { left. destruct (replace_found message "[ERROR]" "[31;1m" pos H4) as (pre & post & Hm & Hr).
    exists pre, post, "[ERROR]"%string, "[31;1m"%string.
    split; [ simpl; tauto | ]. split; [ exact Hm | ].
    change 7%nat with (String.length "[ERROR]"). rewrite <- Hr. reflexivity. }
  right. split; [ | reflexivity ].
  intros tag colour pre post Hin.
  simpl in Hin. destruct Hin as [E|[E|[E|[E|[]]]]]; injection E as <- _;
    apply find_None_no_occurrence; (assumption || discriminate).
Qed.

(** X12.  When neither the time stamp nor the body of a message contains an
    opening bracket, the line [operator()] writes to the console for a message
    at or above the verbosity carries the colour of the message's priority on
    its tag (green, cyan, yellow, red for [MESSAGE], [DEBUGGING], [WARNING],
    [ERROR]; a message of priority [NONE] has no tag and no colour), between
    the time stamp and the body unchanged. *)
Theorem console_colour_by_priority fuel t g p args s :
  wf s ->
  has_char bracket t = false ->
  has_char bracket (addToString EmptyString args) = false ->
  Priority_val (_verbosity s) <= Priority_val p ->
  exists s',
    operator_call (S fuel) t g p args s = Some (s', tt) /\
    std_cout s'
    = (std_cout s
         ++ (t ++ " / " ++ coloured_type p ++ " / " ++ addToString EmptyString args)
         ++ nl)%string.
Proof.
  intros Hwf Ht Hb Hge. exists (rec t g p args s).
  split; [ apply operator_call_free; apply Hwf | ].
  apply Priority_geb_le in Hge. rewrite rec_cout, Hge, rec_timedMsg_body.
  set (body := addToString EmptyString args) in *.
  assert (Hpre : has_char bracket (t ++ " / ") = false)
    by (rewrite has_char_app, Ht; reflexivity).
  unfold toConsole, find. cbn [std_cout set_cout].
  rewrite <- !(append_assoc t " / ").
  destruct p; cbn [rec_type Priority_eqb Priority_val Z.eqb coloured_type];
    search_tags Hpre Hb.
  - colour_at (t ++ " / ")%string 1%nat 7%nat.
  - colour_at (t ++ " / ")%string 0%nat 9%nat.
  - colour_at (t ++ " / ")%string 0%nat 9%nat.
  - colour_at (t ++ " / ")%string 1%nat 7%nat.
  - reflexivity.
Qed.

Lemma console_colour_by_priority_witness :
  exists s',
    operator_call 1 "2016-01-01T00:00:00" true WARNING [ArgCStr "lost "; ArgNum 3]
      (Log_new EmptyString EmptyString) = Some (s', tt) /\
    std_cout s'
    = ("2016-01-01T00:00:00 / " ++ esc ++ "[33;1m[WARNING]" ++ esc ++ "[0m / lost 3" ++ nl)%string.
Proof.
  apply (console_colour_by_priority 0 "2016-01-01T00:00:00" true WARNING
           [ArgCStr "lost "; ArgNum 3] (Log_new EmptyString EmptyString)
           (wf_Log_new EmptyString EmptyString) eq_refl eq_refl).
  simpl. lia.
Defined.

Lemma prefix_empty (s : string) : prefix EmptyString s = true.
Proof. destruct s; reflexivity. Qed.

(** The first search of [toConsole] in a message whose body holds the text
    of the [MESSAGE] tag after [mid], the separators and the tag of another
    priority, and the replacement there. *)
Ltac colour_in_body t mid b1 b2 Hpre Hb :=
  match goal with
  | |- context [index 0 _ ?m] =>
      assert (Hmsg : m = ((t ++ mid ++ b1) ++ "[MESSAGE]" ++ b2)%string)
        by (rewrite !append_assoc; reflexivity);
      assert (Hfind : index 0 "[MESSAGE]" m
                      = Some (String.length (t ++ mid ++ b1) + 0)%nat)
        by (rewrite <- !(append_assoc t " / ");
            rewrite !(index_skip _ _ _ _ Hpre); simpl index;
            rewrite (index_skip _ _ _ _ Hb); simpl index; rewrite prefix_empty;
            cbn [option_map]; f_equal; rewrite !length_append; simpl; lia);
      rewrite Hfind, Hmsg, replace_framed; simpl substring;
      rewrite Nat.sub_0_r, substring_all, !append_assoc; reflexivity
  end.

(** X13.  [toConsole] picks the colour by looking for the tags in the whole
    text, [MESSAGE] first, not by the priority: when the body of a message of
    another priority contains the text of the [MESSAGE] tag (and no opening
    bracket comes before it in the time stamp and the body), that text in the
    body is printed green and the tag of the message's own priority is printed
    without colour. *)
Theorem console_colour_follows_text fuel t g p b1 b2 s :
  wf s ->
  has_char bracket t = false -> has_char bracket b1 = false ->
  p <> MESSAGE ->
  Priority_val (_verbosity s) <= Priority_val p ->
  exists s',
    operator_call (S fuel) t g p [ArgString (b1 ++ "[MESSAGE]" ++ b2)] s = Some (s', tt) /\
    std_cout s'
    = (std_cout s
         ++ (t ++ " / " ++ rec_type p ++ " / "
               ++ b1 ++ esc ++ "[32;1m[MESSAGE]" ++ esc ++ "[0m" ++ b2)
         ++ nl)%string.
Proof.
  intros Hwf Ht Hb Hp Hge.
  exists (rec t g p [ArgString (b1 ++ "[MESSAGE]" ++ b2)] s).
  split; [ apply operator_call_free; apply Hwf | ].
  apply Priority_geb_le in Hge. rewrite rec_cout, Hge, rec_timedMsg_body.
  change (addToString EmptyString [ArgString (b1 ++ "[MESSAGE]" ++ b2)])
    with (b1 ++ "[MESSAGE]" ++ b2)%string.
  assert (Hpre : has_char bracket (t ++ " / ") = false)
    by (rewrite has_char_app, Ht; reflexivity).
  unfold toConsole, find. cbn [std_cout set_cout].
  destruct p; try (contradiction Hp; reflexivity);
    cbn [rec_type Priority_eqb Priority_val Z.eqb].
  - colour_in_body t " /  [DEBUG]  / "%string b1 b2 Hpre Hb.
  - colour_in_body t " / [WARNING] / "%string b1 b2 Hpre Hb.
  - colour_in_body t " /  [ERROR]  / "%string b1 b2 Hpre Hb.
  - colour_in_body t " /  / "%string b1 b2 Hpre Hb.
Qed.

Lemma console_colour_follows_text_witness :
  exists s',
    operator_call 1 "T" true ERROR [ArgString ("see " ++ "[MESSAGE]" ++ " above")]
      (Log_new EmptyString EmptyString) = Some (s', tt) /\
    std_cout s'
    = ("T /  [ERROR]  / see " ++ esc ++ "[32;1m[MESSAGE]" ++ esc ++ "[0m above" ++ nl)%string.
Proof.
  apply (console_colour_follows_text 0 "T" true ERROR "see " " above"
           (Log_new EmptyString EmptyString)
           (wf_Log_new EmptyString EmptyString) eq_refl eq_refl).
  - discriminate.
  - simpl. lia.
Defined.

(** ** The size of the history *)

(** X14.  After any sequence of calls on a well-formed state the number of
    entries in the history is the number it had plus the number handed to it,
    or the capacity if that is less: the history grows by one with every
    entry until it is full and keeps that size from then on. *)
Theorem history_size fuel calls s :
  wf s ->
  exists s' rs,
    run (S fuel) calls s = Some (s', rs) /\
    List.length (_logs s')
    = Nat.min (cap s)
        (List.length (_logs s) + List.length (appended_run (S fuel) calls s)).
Proof.
  intros Hwf.
  destruct (run_spec fuel calls s Hwf) as (s' & rs & Hrun & _ & _ & Hl & _).
  exists s', rs. split; [ exact Hrun | ].
  rewrite Hl, length_lastn, length_app. reflexivity.
Qed.

Lemma history_size_witness :
  exists s' rs,
    run 1 [(example_env, OpSetLog "A" DEBUGGING); (example_env, OpRecord ERROR [ArgNum 1]);
           (example_env, OpSetLog "C" WARNING); (example_env, OpSetLog "D" ERROR)]
      example_log = Some (s', rs) /\
    List.length (_logs s') = 3%nat.
Proof.
  apply (history_size 0
           [(example_env, OpSetLog "A" DEBUGGING); (example_env, OpRecord ERROR [ArgNum 1]);
            (example_env, OpSetLog "C" WARNING); (example_env, OpSetLog "D" ERROR)]
           example_log
           (wf_set_logLength 3 _ (wf_Log_new EmptyString EmptyString)
              ltac:(unfold INT_MAX, size; simpl; lia))).
Defined.
